(** * CT-CLIP: verification of [scripts/ct_lipro_train.py]

    A shallow embedding of the fine-tuning script: the classification
    wrapper [ImageLatentsClassifier] with its [forward], [save] and [load],
    the numeric
    kernels the loop calls (learning-rate schedule, weighted binary
    cross-entropy, gradient clipping) over the real numbers, and the
    training loop [finetune] as a state-and-exception monad whose state
    records the optimizer's learning rate, the gradients shared between
    [clip_grad_norm_] and [optimizer.step()], and the log of the effects
    the loop performs on its collaborators.

    Conventions.  Python integers that count (batch index, epoch index,
    number of batches) are [nat]; command-line integers are [Z].  The
    numeric kernels are given over the real numbers ([R]), which says what
    the formulas compute in exact arithmetic, and, where a statement
    depends on rounding, overflow or NaN, in the binary32 arithmetic of the
    tensors.  Failures of the host file system (permissions, full
    disk) and of the accelerator are outside the model as well: a call into
    the framework is taken to return. *)

From Stdlib Require Import Reals Lra Lia ZArith Ascii String DecimalString.
From Stdlib Require Import DecimalNat DecimalFacts SpecFloat QArith.
From stdpp Require Import base gmap list strings.

Open Scope string_scope.

(** ** Python built-ins used by the script *)

Module Py.

(** The exceptions the modelled code can raise. *)
Inductive exn : Type :=
| ZeroDivisionError
| TypeError
| UnboundLocalError
| FileNotFoundError
| RuntimeError.

Inductive Result (A : Type) : Type :=
| Ok (a : A)
| Raise (e : exn).
Arguments Ok {A} a.
Arguments Raise {A} e.

(** [f'{n}'] for a non-negative integer. *)
Definition str_of_nat (n : nat) : string :=
  NilZero.string_of_uint (Nat.to_uint n).

(** [a % b] on integers: the sign follows the divisor, as [Z.modulo]
    does, and a zero divisor raises. *)
Definition mod_ (a b : Z) : Result Z :=
  if (b =? 0)%Z then Raise ZeroDivisionError else Ok (a mod b)%Z.

(** [range(n)]: empty when [n <= 0]. *)
Definition range (n : Z) : list nat := seq 0 (Z.to_nat n).

Fixpoint endswith_sep (s : string) : bool :=
  match s with
  | EmptyString => false
  | String c EmptyString => bool_decide (c = "/"%char)
  | String _ rest => endswith_sep rest
  end.

(** [os.path.join(a, b)] of [posixpath], for two components. *)
Definition os_path_join (a b : string) : string :=
  if String.prefix "/" b then b
  else if bool_decide (a = "") || endswith_sep a then a ++ b
  else a ++ "/" ++ b.

End Py.
Import Py.

(** ** Command-line arguments read by [finetune]

    [args.save] defaults to [None] (line 123 tests for it); the other
    fields are the integers and floats the loop reads.  The fields that
    only locate the data and the pretrained weights take no part in the
    loop and are left out. *)

Record Args : Type := {
  lr : R;
  wd : R;
  warmup_length : Z;
  epochs : Z;
  print_every : Z;
  save_every : Z;
  save : option string
}.

(** ** Numeric kernels, over the real numbers *)

Section Numerics.
Local Open Scope R_scope.

(** Modelled from the spec: [cosine_lr] of [src/models/utils.py], imported
    on line 13 and missing from the sources at hand.  The spec (4.3)
    describes it as "a function of (base_lr, warmup_length, total_steps)
    returning a per-step learning rate: linear ramp from 0 to base_lr over
    the warmup window, then cosine decay from base_lr toward 0 over the
    remaining steps".  The warmup window is the steps below
    [warmup_length]; the ramp starts at 0 on step 0 and would reach
    [base_lr] on step [warmup_length], where the half-cosine takes over and
    falls to 0 on step [steps]. *)
Definition cosine_lr (base_lr : R) (warmup_length steps : Z) (step : Z) : R :=
  if (step <? warmup_length)%Z
  then base_lr * IZR step / IZR warmup_length
  else base_lr * (1 + cos (PI * IZR (step - warmup_length)
                              / IZR (steps - warmup_length))) / 2.

(** Lines 77-80: the positive-class weights. *)
Definition weights : list R :=
  [9.211362733; 2.384068466; 8.295479204; 32.8629776; 2.992233613;
   6.064870808; 3.176470588; 4.187083754; 3.022222222; 1.216071737;
   1.677849552; 3.152851834; 7.123261694; 18.16629381; 13.8480647;
   6.335045662; 10.81701149; 13.40695067].

Definition sigmoid (x : R) : R := 1 / (1 + exp (- x)).

(** [log] over the reals has a value on positive arguments only. *)
Definition log_ (x : R) : option R :=
  if Rlt_dec 0 x then Some (ln x) else None.

(** [labels.float()] on a 0/1 label. *)
Definition float_of_label (y : bool) : R := if y then 1 else 0.

(** One element of [BCEWithLogitsLoss(pos_weight=p)], as the framework
    documents it:
    [- (p * y * log (sigmoid x) + (1 - y) * log (1 - sigmoid x))]. *)
Definition bce_elem (p x : R) (y : bool) : option R :=
  ls ← log_ (sigmoid x);
  lc ← log_ (1 - sigmoid x);
  Some (- (p * float_of_label y * ls + (1 - float_of_label y) * lc)).

(** One sample: the weight vector is matched against the class dimension;
    [None] when the three lengths differ (the framework raises). *)
Fixpoint bce_row (ps xs : list R) (ys : list bool) : option (list R) :=
  match ps, xs, ys with
  | [], [], [] => Some []
  | p :: ps', x :: xs', y :: ys' =>
      e ← bce_elem p x y; r ← bce_row ps' xs' ys'; Some (e :: r)
  | _, _, _ => None
  end.

(** A batch: the elements of all samples, in order. *)
Fixpoint bce_rows (ps : list R) (logits : list (list R))
    (labels : list (list bool)) : option (list R) :=
  match logits, labels with
  | [], [] => Some []
  | xs :: logits', ys :: labels' =>
      r ← bce_row ps xs ys; rs ← bce_rows ps logits' labels'; Some (r ++ rs)%list
  | _, _ => None
  end.

Definition Rsum (l : list R) : R := fold_right Rplus 0 l.

(** [reduction='mean']: no value over no elements. *)
Definition mean (l : list R) : option R :=
  match l with
  | [] => None
  | _ => Some (Rsum l / INR (length l))
  end.

(** [torch.nn.BCEWithLogitsLoss(pos_weight=...)] applied to a batch of
    logits and labels, in exact arithmetic.  [None] stands for a shape
    error, or for the mean of no element. *)
Definition BCEWithLogitsLoss (pos_weight : list R) (logits : list (list R))
    (labels : list (list bool)) : option R :=
  es ← bce_rows pos_weight logits labels; mean es.

(** Line 81 and line 103. *)
Definition loss_fn : list (list R) -> list (list bool) -> option R :=
  BCEWithLogitsLoss weights.

(** The 2-norm of one tensor, and of all gradients taken together (the
    norm of the per-tensor norms). *)
Definition l2norm (v : list R) : R :=
  sqrt (Rsum (map (fun x => x * x) v)).

Definition total_norm (grads : list (list R)) : R :=
  l2norm (map l2norm grads).

(** [torch.nn.utils.clip_grad_norm_(parameters, max_norm)] with the default
    2-norm: every gradient is scaled in place by
    [min (max_norm / (total_norm + 1e-6)) 1]. *)
Definition clip_grad_norm_ (grads : list (list R)) (max_norm : R)
    : list (list R) :=
  let clip_coef := max_norm / (total_norm grads + 1e-6) in
  let clip_coef_clamped := Rmin clip_coef 1 in
  map (map (Rmult clip_coef_clamped)) grads.

End Numerics.

(** ** Binary32 arithmetic

    The tensors of the script hold IEEE 754 binary32 numbers ([float32],
    the framework's default).  The real-number kernels above say what the
    framework's formulas compute in exact arithmetic; the definitions here
    evaluate the same formulas with the rounding, the overflow to infinity
    and the NaN of binary32, on the executable specification of IEEE
    arithmetic of the standard library. *)

Module F32.

Definition prec : Z := 24.
Definition emax : Z := 128.

Definition t : Type := spec_float.

Definition add : t -> t -> t := SFadd prec emax.
Definition mul : t -> t -> t := SFmul prec emax.
Definition div : t -> t -> t := SFdiv prec emax.
Definition sqrt : t -> t := SFsqrt prec emax.

(** The binary32 number nearest to an integer. *)
Definition of_Z (z : Z) : t := binary_normalize prec emax z 0 false.

(** The binary32 number nearest to the decimal [m / 10^d]: the quotient is
    taken with 64 extra bits and a sticky bit, and then rounded once. *)
Definition of_decimal (m d : Z) : t :=
  let n := (m * 2 ^ 64)%Z in
  let q := (n / 10 ^ d)%Z in
  let sticky := if (n mod 10 ^ d =? 0)%Z then 0%Z else 1%Z in
  binary_normalize prec emax (2 * q + sticky) (-65) false.

Definition zero : t := S754_zero false.
Definition one : t := of_Z 1.


(** [x > y]; false when either is NaN. *)
Definition gtb (x y : t) : bool := SFltb y x.

(** [torch.clamp(x, max=m)]: NaN stays NaN. *)
Definition clamp_max (x m : t) : t := if gtb x m then m else x.

(** The exact value of a finite number, as a rational. *)
Definition to_Q (x : t) : Q :=
  match x with
  | S754_finite s m e =>
      (inject_Z (if s then Z.neg m else Z.pos m) * Qpower 2 e)%Q
  | _ => 0%Q
  end.

(** The sum of a tensor, accumulated from the left. *)
Definition sum (v : list t) : t := fold_left add v zero.

End F32.

(** [torch.nn.utils.clip_grad_norm_] in binary32: the 2-norm of every
    tensor, the 2-norm of these norms, and every gradient multiplied by
    [clamp(max_norm / (total_norm + 1e-6), max=1.0)], where a number over
    a tensor is the reciprocal of the tensor times the number. *)
Definition l2norm_f32 (v : list F32.t) : F32.t :=
  F32.sqrt (F32.sum (map (fun x => F32.mul x x) v)).

Definition total_norm_f32 (grads : list (list F32.t)) : F32.t :=
  l2norm_f32 (map l2norm_f32 grads).

Definition clip_grad_norm_f32 (grads : list (list F32.t)) (max_norm : F32.t)
    : list (list F32.t) :=
  let clip_coef :=
    F32.mul
      (F32.div F32.one
         (F32.add (total_norm_f32 grads) (F32.of_decimal 1 6)))
      max_norm in
  let clip_coef_clamped := F32.clamp_max clip_coef F32.one in
  map (map (fun g => F32.mul g clip_coef_clamped)) grads.

(** The squared total norm of binary32 gradients, as an exact rational. *)
Definition squared_norm_exact (grads : list (list F32.t)) : Q :=
  fold_right Qplus 0%Q
    (map (fun g => fold_right Qplus 0%Q
                     (map (fun x => (F32.to_Q x * F32.to_Q x)%Q) g)) grads).


Section LossF32.

(** The framework's [log_sigmoid] on binary32, a transcendental function
    that the specification of IEEE arithmetic does not provide. *)
Variable log_sigmoid : F32.t -> F32.t.






End LossF32.

(** ** The classification wrapper (lines 15-38)

    A tensor is its shape and its values; a module's state is the map from
    parameter names to tensors that [state_dict()] returns.  The file
    system maps a path to the object last pickled there: a module's state
    or an optimizer's state, whose contents no claim looks at. *)

Record Tensor : Type := { shape : list nat; data : list R }.

Inductive File : Type :=
| FStateDict (sd : gmap string Tensor)
| FOptimizerState.

(** [torch.save(obj, path)]. *)
Definition torch_save (obj : File) (path : string) (fs : gmap string File)
    : gmap string File :=
  <[path := obj]> fs.

(** [torch.load(path)]. *)
Definition torch_load (path : string) (fs : gmap string File) : Result File :=
  match fs !! path with
  | Some f => Ok f
  | None => Raise FileNotFoundError
  end.

(** A loaded entry fits a parameter when the name is present with the same
    shape. *)
Definition param_fits (loaded : gmap string Tensor) (k : string) (t : Tensor)
    : bool :=
  match loaded !! k with
  | Some t' => bool_decide (shape t' = shape t)
  | None => false
  end.

(** [nn.Module.load_state_dict(loaded)] with the default [strict=True]:
    missing keys, unexpected keys and shape mismatches raise; otherwise
    every parameter takes the loaded value of its name. *)
Definition load_state_dict (own loaded : gmap string Tensor)
    : Result (gmap string Tensor) :=
  if bool_decide (map_Forall (fun k t => param_fits loaded k t = true) own)
     && bool_decide (map_Forall (fun k _ => is_Some (own !! k)) loaded)
  then Ok (map_imap (fun k _ => loaded !! k) own)
  else Raise RuntimeError.

Module ImageLatentsClassifier.

(** The parameters registered under the wrapper: those of [trained_model]
    and the weight and bias of [classifier]. *)
Record t : Type := { state_dict : gmap string Tensor }.

(** Lines 31-33. *)
Definition save (self : t) (file_path : string) (fs : gmap string File)
    : gmap string File :=
  torch_save (FStateDict (state_dict self)) file_path fs.

(** Lines 35-38. *)
Definition load (self : t) (file_path : string) (fs : gmap string File)
    : Result t :=
  match torch_load file_path fs with
  | Raise e => Raise e
  | Ok (FStateDict loaded_state_dict) =>
      match load_state_dict (state_dict self) loaded_state_dict with
      | Ok sd => Ok {| state_dict := sd |}
      | Raise e => Raise e
      end
  | Ok FOptimizerState => Raise RuntimeError
  end.

End ImageLatentsClassifier.

(** Two module states have the same architecture when they hold the same
    parameter names with the same shapes. *)
Definition same_architecture (a b : gmap string Tensor) : Prop :=
  shape <$> a = shape <$> b.

(** ** The forward pass of the wrapper (lines 16-29)

    A batch of latents or of logits is the list of its rows.  The layers
    are those of the framework: [nn.ReLU], [nn.Dropout] and [nn.Linear]. *)

(** The values passed by keyword. *)
Inductive PyValue : Type :=
| PyBool (b : bool)
| PyDevice (name : string).

(** What the forward pass can raise: the [ValueError] of unpacking a tuple
    that is not a pair (line 26), or the exception of a layer. *)
Inductive forward_exn : Type :=
| ValueError
| LayerError (e : exn).

(** [nn.ReLU()]. *)
Definition ReLU (x : list (list R)) : list (list R) :=
  map (map (Rmax 0)) x.

(** [nn.Dropout(p)] for [p < 1]: the identity in evaluation mode; in
    training mode an entry is zeroed or scaled by [1 / (1 - p)], as the
    random draw [keep] for its position decides. *)
Definition Dropout (p : R) (training : bool) (keep : nat -> nat -> bool)
    (x : list (list R)) : list (list R) :=
  if training
  then imap (fun r row =>
               imap (fun c v => if keep r c then (v / (1 - p))%R else 0%R) row)
         x
  else x.

(** [nn.Linear(in_features, out_features)]: the entry [weight j k] weighs
    input [k] in output [j]. *)
Record Linear : Type := {
  in_features : nat;
  out_features : nat;
  weight : nat -> nat -> R;
  bias : nat -> R
}.

(** One row through the layer; a row of another width than [in_features]
    is a shape error. *)
Definition linear_row (l : Linear) (x : list R) : Result (list R) :=
  if bool_decide (length x = in_features l)
  then Ok (map (fun j => (Rsum (imap (fun k v => (v * weight l j k)%R) x)
                          + bias l j)%R)
             (seq 0 (out_features l)))
  else Raise RuntimeError.

Fixpoint linear (l : Linear) (x : list (list R)) : Result (list (list R)) :=
  match x with
  | [] => Ok []
  | row :: x' =>
      match linear_row l row with
      | Raise e => Raise e
      | Ok y =>
          match linear l x' with
          | Raise e => Raise e
          | Ok ys => Ok (y :: ys)
          end
      end
  end.

Module Forward.

Section Wrapper.

(** The positional arguments, which the wrapper only passes on. *)
Variable Arg : Type.

(** The fields [__init__] sets, and the mode flag of [nn.Module].  What
    [trained_model] returns is the tuple of its results. *)
Record t : Type := {
  trained_model : list Arg -> gmap string PyValue -> list (list (list R));
  dropout_prob : R;
  classifier : Linear;
  training : bool
}.

(** Lines 16-21, with the initial values of the linear layer; a module
    starts in training mode. *)
Definition init
    (trained_model : list Arg -> gmap string PyValue -> list (list (list R)))
    (latent_dim num_classes : nat) (dropout_prob : R)
    (weight0 : nat -> nat -> R) (bias0 : nat -> R) : t :=
  {| trained_model := trained_model;
     dropout_prob := dropout_prob;
     classifier := {| in_features := latent_dim; out_features := num_classes;
                      weight := weight0; bias := bias0 |};
     training := true |}.

(** Lines 23-29. *)
Definition forward (self : t) (keep : nat -> nat -> bool)
    (args : list Arg) (kwargs : gmap string PyValue)
    : forward_exn + list (list R) :=
  let kwargs := <["return_latents" := PyBool true]> kwargs in
  match trained_model self args kwargs with
  | [_; image_latents] =>
      let image_latents := ReLU image_latents in
      let image_latents :=
        Dropout (dropout_prob self) (training self) keep image_latents in
      match linear (classifier self) image_latents with
      | Ok logits => inr logits
      | Raise e => inl (LayerError e)
      end
  | _ => inl ValueError
  end.

End Wrapper.

End Forward.

(** Line 62 and the default of line 16. *)
Definition num_classes : nat := 18.
Definition default_dropout_prob : R := 0.3.

(** ** The training loop (lines 40-129) *)

(** The keyword arguments of the tokenizer call on line 99; the encoded
    text is identified by the call that produces it. *)
Record TokenizerCall : Type := {
  text : string;
  return_tensors : string;
  padding : string;
  truncation : bool;
  max_length : nat
}.

(** The effects of the loop on its collaborators, in program order. *)
Inductive event : Type :=
| EModelTrain                                  (* model.train() *)
| EFetchBatch (epoch i : nat)                  (* enumerate(dl) yields batch i *)
| EClock                                       (* time.time() *)
| ESchedulerCall (step : nat)                  (* scheduler(step) *)
| EZeroGrad                                    (* optimizer.zero_grad() *)
| ELabelsToCuda                                (* labels.float().cuda() *)
| ETokenize (call : TokenizerCall)             (* tokenizer(...).to("cuda") *)
| EForward (text_tokens : TokenizerCall) (epoch i : nat)
                                               (* model(text_tokens, inputs) *)
| ELoss                                        (* loss_fn(logits, labels) *)
| EBackward                                    (* loss.backward() *)
| EClipGradNorm (max_norm : R)                 (* clip_grad_norm_(params, _) *)
| EOptimStep (lr_now : R) (grads_now : option (list (list R)))
                                               (* optimizer.step() *)
| EPrintProgress (epoch i num_batches : nat)   (* print(f"Train Epoch: ...") *)
| EMakedirs (path : string)                    (* os.makedirs(_, exist_ok=True) *)
| EPrintSaving (path : string)                 (* print('Saving model to', _) *)
| ESaveModel (path : string)                   (* image_classifier.save(_) *)
| ESaveOptim (path : string).                  (* torch.save(optimizer.state_dict(), _) *)

(** The mutable state the loop shares with the optimizer: the learning
    rate of the parameter groups, the [.grad] of the trainable parameters
    ([None] once zeroed), and the log of effects so far. *)
Record World : Type := {
  log : list event;
  grads : option (list (list R));
  optim_lr : R
}.

(** Computations that read and write the world and may raise; the world
    reached at the raise is kept. *)
Definition M (A : Type) : Type := World -> Result A * World.

Definition ret {A} (a : A) : M A := fun w => (Ok a, w).

Definition bind {A B} (m : M A) (k : A -> M B) : M B :=
  fun w =>
    match m w with
    | (Ok a, w') => k a w'
    | (Raise e, w') => (Raise e, w')
    end.

Definition raise {A} (e : exn) : M A := fun w => (Raise e, w).

Definition lift {A} (r : Result A) : M A := fun w => (r, w).

Definition emit (ev : event) : M unit :=
  fun w => (Ok tt, {| log := (log w ++ [ev])%list;
                      grads := grads w; optim_lr := optim_lr w |}).

Declare Scope py_scope.
Delimit Scope py_scope with py.
Notation "x <- m ;; k" := (bind m (fun x => k))
  (at level 100, m at next level, right associativity) : py_scope.
Notation "m ;; k" := (bind m (fun _ => k))
  (at level 100, right associativity) : py_scope.

(** [for x in xs: body(x)]; returns the last value bound to the loop
    variable, [bound] when the list is empty. *)
Fixpoint for_each (xs : list nat) (body : nat -> M unit) (bound : option nat)
    : M (option nat) :=
  match xs with
  | [] => ret bound
  | x :: xs' => bind (body x) (fun _ => for_each xs' body (Some x))
  end.

(** Reading a local variable that may be unbound. *)
Definition read_local (v : option nat) : M nat :=
  match v with
  | Some n => ret n
  | None => raise UnboundLocalError
  end.

(** [os.makedirs(path, exist_ok=True)]: a path that is [None] is a type
    error. *)
Definition os_makedirs (path : option string) : M string :=
  match path with
  | Some p => bind (emit (EMakedirs p)) (fun _ => ret p)
  | None => raise TypeError
  end.

(** The f-strings of lines 116, 119, 125 and 128. *)
Definition periodic_checkpoint_name (i epoch : nat) : string :=
  "checkpoint_" ++ str_of_nat i ++ "_epoch_" ++ str_of_nat (epoch + 1) ++ ".pt".

Definition periodic_optim_name (i epoch : nat) : string :=
  "optim_" ++ str_of_nat i ++ "_epoch_" ++ str_of_nat (epoch + 1) ++ ".pt".

Definition final_checkpoint_name (epoch : nat) : string :=
  "checkpoint_" ++ str_of_nat (epoch + 1) ++ ".pt".

Definition final_optim_name (epoch : nat) : string :=
  "optim_" ++ str_of_nat (epoch + 1) ++ ".pt".

(** Line 99. *)
Definition empty_prompt : TokenizerCall :=
  {| text := ""; return_tensors := "pt"; padding := "max_length";
     truncation := true; max_length := 200 |}.

(** Line 106. *)
Definition max_grad_norm : R := 1.0.

Section Loop.

(** The gradient that the forward pass, the loss and [loss.backward()]
    produce on batch [i] of epoch [epoch]: it depends on the network, the
    data and the dropout mask, none of which the script computes itself. *)
Variable backward_grads : nat -> nat -> list (list R).

Variable args : Args.

(** [len(dl)], line 68.  The loader of line 67 shuffles, and so rejects an
    empty data set before the loop is reached: a run of the script has at
    least one batch. *)
Variable num_batches : nat.

Local Open Scope py_scope.

(** Line 85 and line 93: the scheduler assigns the scheduled rate to the
    optimizer's parameter groups. *)
Definition scheduler (step : nat) : M unit :=
  fun w =>
    (Ok tt,
     {| log := (log w ++ [ESchedulerCall step])%list;
        grads := grads w;
        optim_lr := cosine_lr (lr args) (warmup_length args)
                      (epochs args * Z.of_nat num_batches) (Z.of_nat step) |}).

Definition zero_grad : M unit :=
  fun w => (Ok tt, {| log := (log w ++ [EZeroGrad])%list;
                      grads := None; optim_lr := optim_lr w |}).

(** [loss.backward()] accumulates into [.grad]. *)
Definition backward (epoch i : nat) : M unit :=
  fun w =>
    let g := backward_grads epoch i in
    (Ok tt,
     {| log := (log w ++ [EBackward])%list;
        grads := match grads w with
                 | None => Some g
                 | Some old => Some (zip_with (zip_with Rplus) old g)
                 end;
        optim_lr := optim_lr w |}).

Definition clip_grad_norm (max_norm : R) : M unit :=
  fun w =>
    (Ok tt,
     {| log := (log w ++ [EClipGradNorm max_norm])%list;
        grads := (fun g => clip_grad_norm_ g max_norm) <$> grads w;
        optim_lr := optim_lr w |}).

(** [optimizer.step()] consumes the current rate and gradients. *)
Definition optimizer_step : M unit :=
  fun w => emit (EOptimStep (optim_lr w) (grads w)) w.

(** Lines 114-120. *)
Definition periodic_save (epoch i : nat) : M unit :=
  dir <- os_makedirs (save args) ;;
  let model_path := os_path_join dir (periodic_checkpoint_name i epoch) in
  emit (EPrintSaving model_path) ;;
  emit (ESaveModel model_path) ;;
  let optim_path := os_path_join dir (periodic_optim_name i epoch) in
  emit (ESaveOptim optim_path).

(** Lines 90-120: one pass through the body of the batch loop.  The calls
    into the framework on lines 93-108 are taken to return; what the pass
    itself can raise is the remainder by zero of lines 110 and 114 and the
    directory of line 115. *)
Definition iteration (epoch i : nat) : M unit :=
  emit (EFetchBatch epoch i) ;;
  emit EClock ;;
  let step := i + epoch * num_batches in
  scheduler step ;;
  zero_grad ;;
  emit ELabelsToCuda ;;
  let text_tokens := empty_prompt in
  emit (ETokenize text_tokens) ;;
  emit EClock ;;
  emit (EForward text_tokens epoch i) ;;
  emit ELoss ;;
  backward epoch i ;;
  clip_grad_norm max_grad_norm ;;
  optimizer_step ;;
  emit EClock ;;
  r <- lift (mod_ (Z.of_nat i) (print_every args)) ;;
  (if (r =? 0)%Z then emit (EPrintProgress epoch i num_batches) else ret tt) ;;
  r <- lift (mod_ (Z.of_nat i) (save_every args)) ;;
  (if (r =? 0)%Z then periodic_save epoch i else ret tt).

(** Lines 88-90. *)
Definition epoch_body (epoch : nat) : M unit :=
  emit EModelTrain ;;
  for_each (seq 0 num_batches) (iteration epoch) None ;;
  ret tt.

Definition training_loop : M (option nat) :=
  for_each (range (epochs args)) epoch_body None.

(** Lines 122-129: [epoch] is the loop variable of line 88, read after the
    loop. *)
Definition final_save (epoch : option nat) : M unit :=
  match save args with
  | None => ret tt
  | Some dir =>
      emit (EMakedirs dir) ;;
      e <- read_local epoch ;;
      let model_path := os_path_join dir (final_checkpoint_name e) in
      emit (EPrintSaving model_path) ;;
      emit (ESaveModel model_path) ;;
      let optim_path := os_path_join dir (final_optim_name e) in
      emit (ESaveOptim optim_path)
  end.

(** The world when the loop starts: no effect yet, no gradient, and the
    rate the optimizer was built with (line 84). *)
Definition initial_world : World :=
  {| log := []; grads := None; optim_lr := lr args |}.

Definition finetune : Result unit * World :=
  (epoch <- training_loop ;; final_save epoch) initial_world.

End Loop.

(** ** Vocabulary for statements about the log *)

(** The thirteen effects that open every pass through the loop body, from
    the fetch of the batch to the clock read after [optimizer.step()]
    (lines 90-108). *)
Definition iteration_prefix (backward_grads : nat -> nat -> list (list R))
    (args : Args) (num_batches epoch i : nat) : list event :=
  [ EFetchBatch epoch i;
    EClock;
    ESchedulerCall (i + epoch * num_batches);
    EZeroGrad;
    ELabelsToCuda;
    ETokenize empty_prompt;
    EClock;
    EForward empty_prompt epoch i;
    ELoss;
    EBackward;
    EClipGradNorm max_grad_norm;
    EOptimStep
      (cosine_lr (lr args) (warmup_length args)
         (epochs args * Z.of_nat num_batches)
         (Z.of_nat (i + epoch * num_batches)))
      (Some (clip_grad_norm_ (backward_grads epoch i) max_grad_norm));
    EClock ].

(** The effects of a checkpoint: directory, message, model, optimizer. *)
Definition checkpoint_events (dir model_name optim_name : string)
    : list event :=
  [ EMakedirs dir;
    EPrintSaving (os_path_join dir model_name);
    ESaveModel (os_path_join dir model_name);
    ESaveOptim (os_path_join dir optim_name) ].

(** Effects that can follow the prefix within one pass: the progress line
    and the checkpoint. *)
Definition is_tail_event (ev : event) : bool :=
  match ev with
  | EPrintProgress _ _ _ | EMakedirs _ | EPrintSaving _
  | ESaveModel _ | ESaveOptim _ => true
  | _ => false
  end.

(** The model files a log writes, in order. *)
Definition saved_models (l : list event) : list string :=
  omap (fun ev => match ev with ESaveModel p => Some p | _ => None end) l.

(** Effects that stand between two passes: the switch to training mode at
    the head of an epoch, and the tail effects above. *)
Definition is_boundary_event (ev : event) : bool :=
  match ev with
  | EModelTrain => true
  | _ => is_tail_event ev
  end.

(** The shape of every log the loop can produce, whether or not it runs to
    completion: boundary effects and whole prefixes. *)
Inductive Blocks (backward_grads : nat -> nat -> list (list R))
    (args : Args) (num_batches : nat) : list event -> Prop :=
| Blocks_nil : Blocks backward_grads args num_batches []
| Blocks_boundary l ev :
    Blocks backward_grads args num_batches l ->
    is_boundary_event ev = true ->
    Blocks backward_grads args num_batches (l ++ [ev])
| Blocks_prefix l epoch i :
    Blocks backward_grads args num_batches l ->
    Blocks backward_grads args num_batches
      (l ++ iteration_prefix backward_grads args num_batches epoch i).

(** The effects of one pass on which nothing raises, writing under [dir]. *)
Definition iteration_events (backward_grads : nat -> nat -> list (list R))
    (args : Args) (num_batches : nat) (dir : string) (epoch i : nat)
    : list event :=
  (iteration_prefix backward_grads args num_batches epoch i
   ++ (if (Z.of_nat i mod print_every args =? 0)%Z
       then [EPrintProgress epoch i num_batches] else [])
   ++ (if (Z.of_nat i mod save_every args =? 0)%Z
       then checkpoint_events dir (periodic_checkpoint_name i epoch)
              (periodic_optim_name i epoch)
       else []))%list.

(** The effects of one epoch on which nothing raises. *)
Definition epoch_events (backward_grads : nat -> nat -> list (list R))
    (args : Args) (num_batches : nat) (dir : string) (epoch : nat)
    : list event :=
  EModelTrain
  :: flat_map (iteration_events backward_grads args num_batches dir epoch)
       (seq 0 num_batches).

(** The value of a loop variable after [for x in xs]. *)
Definition bound_after (xs : list nat) (bound : option nat) : option nat :=
  match last xs with
  | Some x => Some x
  | None => bound
  end.

(** ** Vocabulary for statements about whole runs *)

(** The global steps the scheduler is called with, in order. *)
Definition scheduler_steps (l : list event) : list nat :=
  omap (fun ev => match ev with ESchedulerCall s => Some s | _ => None end) l.

(** The number of calls of [optimizer.step()]. *)
Definition optimizer_step_count (l : list event) : nat :=
  length (omap (fun ev => match ev with
                          | EOptimStep r g => Some (r, g)
                          | _ => None
                          end) l).

(** The three effects that write a checkpoint: the message, the model
    state and the optimizer state. *)
Definition is_save_event (ev : event) : bool :=
  match ev with
  | EPrintSaving _ | ESaveModel _ | ESaveOptim _ => true
  | _ => false
  end.

(** The two paths of a checkpoint the run can take: the periodic one of a
    batch index [i] of an epoch [e] (lines 116 and 119), or the final one
    (lines 125 and 128), under the configured directory. *)
Definition checkpoint_pair (args : Args) (num_batches : nat)
    (model_path optim_path : string) : Prop :=
  exists dir,
    save args = Some dir
    /\ ((exists e i,
            (e < Z.to_nat (epochs args))%nat
            /\ (i < num_batches)%nat
            /\ save_every args <> 0%Z
            /\ (Z.of_nat i mod save_every args = 0)%Z
            /\ model_path = os_path_join dir (periodic_checkpoint_name i e)
            /\ optim_path = os_path_join dir (periodic_optim_name i e))
        \/ ((1 <= epochs args)%Z
            /\ model_path
               = os_path_join dir
                   (final_checkpoint_name (Z.to_nat (epochs args) - 1))
            /\ optim_path
               = os_path_join dir
                   (final_optim_name (Z.to_nat (epochs args) - 1)))).

(** Logs in which the three effects of a checkpoint only occur together,
    in order and on the paths of a checkpoint of the run. *)
Inductive Paired (args : Args) (num_batches : nat) : list event -> Prop :=
| Paired_nil : Paired args num_batches []
| Paired_other l ev :
    Paired args num_batches l ->
    is_save_event ev = false ->
    Paired args num_batches (l ++ [ev])
| Paired_save l p q :
    Paired args num_batches l ->
    checkpoint_pair args num_batches p q ->
    Paired args num_batches (l ++ [EPrintSaving p; ESaveModel p; ESaveOptim q]).

(** The files a log writes, model and optimizer states alike, in order. *)
Definition written_paths (l : list event) : list string :=
  omap (fun ev => match ev with
                  | ESaveModel p | ESaveOptim p => Some p
                  | _ => None
                  end) l.

(** The characters an f-string prints for a non-negative integer. *)
Definition is_digit (c : ascii) : bool :=
  match c with
  | "0" | "1" | "2" | "3" | "4" | "5" | "6" | "7" | "8" | "9" => true
  | _ => false
  end%char.

(** A string that does not go on with a digit. *)
Definition stops_number (s : string) : Prop :=
  match s with
  | EmptyString => True
  | String c _ => is_digit c = false
  end.

(** What [os.path.join] puts in front of a relative second component. *)
Definition join_prefix (a : string) : string :=
  if bool_decide (a = "") || endswith_sep a then a else a ++ "/".

(** The files a run can write: a periodic checkpoint of batch index [i] in
    epoch [epoch], or the final checkpoint after epoch [epoch], each with
    the model state and the optimizer state. *)
Inductive checkpoint_file : Type :=
| PeriodicModel (i epoch : nat)
| PeriodicOptim (i epoch : nat)
| FinalModel (epoch : nat)
| FinalOptim (epoch : nat).

(** The f-strings of lines 116, 119, 125 and 128. *)
Definition file_name (f : checkpoint_file) : string :=
  match f with
  | PeriodicModel i epoch => periodic_checkpoint_name i epoch
  | PeriodicOptim i epoch => periodic_optim_name i epoch
  | FinalModel epoch => final_checkpoint_name epoch
  | FinalOptim epoch => final_optim_name epoch
  end.

(** The files of the periodic checkpoint of one pass, if it takes one. *)
Definition pass_files (args : Args) (epoch i : nat) : list checkpoint_file :=
  if (Z.of_nat i mod save_every args =? 0)%Z
  then [PeriodicModel i epoch; PeriodicOptim i epoch] else [].

(** The files of a run on which nothing raises, in the order of writing. *)
Definition run_files (args : Args) (num_batches : nat) : list checkpoint_file :=
  (flat_map (fun epoch => flat_map (pass_files args epoch) (seq 0 num_batches))
     (range (epochs args))
   ++ [FinalModel (Z.to_nat (epochs args) - 1);
       FinalOptim (Z.to_nat (epochs args) - 1)])%list.

(** What a progress line is printed for: a batch index below the length
    of the loader that is a multiple of a non-zero [print_every]. *)
Definition progress_ok (args : Args) (num_batches : nat) (ev : event) : Prop :=
  match ev with
  | EPrintProgress e i n =>
      n = num_batches
      /\ (i < n)%nat
      /\ (e < Z.to_nat (epochs args))%nat
      /\ print_every args <> 0%Z
      /\ (Z.of_nat i mod print_every args = 0)%Z
  | _ => True
  end.

(** ** Concrete inputs

    Small inputs on which the statements below are exercised. *)

(** Two wrappers used as concrete inputs: a one-layer classifier with two
    classes over three latents, and the same architecture holding other
    values; [narrow_classifier] has a bias of another shape. *)
Definition small_classifier : ImageLatentsClassifier.t :=
  {| ImageLatentsClassifier.state_dict :=
       {[ "classifier.weight" := {| shape := [2; 3]%nat;
                                     data := [1; 2; 3; 4; 5; 6]%R |};
          "classifier.bias" := {| shape := [2]%nat; data := [7; 8]%R |} ]} |}.

Definition fresh_classifier : ImageLatentsClassifier.t :=
  {| ImageLatentsClassifier.state_dict :=
       {[ "classifier.weight" := {| shape := [2; 3]%nat;
                                     data := [0; 0; 0; 0; 0; 0]%R |};
          "classifier.bias" := {| shape := [2]%nat; data := [0; 0]%R |} ]} |}.

Definition narrow_classifier : ImageLatentsClassifier.t :=
  {| ImageLatentsClassifier.state_dict :=
       {[ "classifier.weight" := {| shape := [2; 3]%nat;
                                     data := [0; 0; 0; 0; 0; 0]%R |};
          "classifier.bias" := {| shape := [1]%nat; data := [0]%R |} ]} |}.

(** A run configuration: three epochs, a progress line every second batch
    and a checkpoint every fifth, written under [out]. *)
Definition demo_args : Args :=
  {| lr := 1e-3; wd := 0.1; warmup_length := 2; epochs := 3;
     print_every := 2; save_every := 5; save := Some "out" |}.

(** The same configuration with no epoch to run and no output directory. *)
Definition idle_args : Args :=
  {| lr := 1e-3; wd := 0.1; warmup_length := 2; epochs := 0;
     print_every := 2; save_every := 5; save := None |}.

(** The same configuration with no epoch to run, writing under [out]. *)
Definition zero_epoch_args : Args :=
  {| lr := 1e-3; wd := 0.1; warmup_length := 2; epochs := 0;
     print_every := 2; save_every := 5; save := Some "out" |}.


(** Gradients of norm 13 on every batch: two tensors, [(3, 4)] and [(12)]. *)
Definition demo_grads (epoch i : nat) : list (list R) :=
  [[3; 4]; [12]]%R.

(** A wrapped model that returns a text latent and the image latents of a
    batch of two, with three entries each; and a wrapper over it with two
    classes. *)
Definition demo_trained_model (args : list nat)
    (kwargs : gmap string PyValue) : list (list (list R)) :=
  [ [[1; 2; 3]]; [[1; -2; 3]; [0; 0; 1]] ]%R.

Definition demo_wrapper : Forward.t nat :=
  Forward.init nat demo_trained_model 3 2 default_dropout_prob
    (fun _ _ => 1%R) (fun _ => 0%R).

(** * Properties *)

(** ** The log of the training loop *)

Ltac run_body :=
  cbv [iteration periodic_save os_makedirs lift bind emit scheduler zero_grad
       backward clip_grad_norm optimizer_step ret raise
       log grads optim_lr snd fst fmap option_fmap option_map].

Section LoopFacts.
Variable backward_grads : nat -> nat -> list (list R).
Variable args : Args.
Variable num_batches : nat.

Lemma iteration_shape (e i : nat) (w : World) :
  exists tail,
    log (snd (iteration backward_grads args num_batches e i w))
    = (log w ++ iteration_prefix backward_grads args num_batches e i ++ tail)%list /\
    Forall (fun ev => is_tail_event ev = true) tail.
Proof.
  destruct w as [l g r]. run_body.
  destruct (mod_ (Z.of_nat i) (print_every args)) as [r1|x1];
    [destruct (r1 =? 0)%Z|];
    (destruct (mod_ (Z.of_nat i) (save_every args)) as [r2|x2];
      [destruct (r2 =? 0)%Z; [destruct (save args) as [d|]|]|]);
    rewrite <- ?app_assoc; cbn [app]; unfold iteration_prefix; cbn [app].
  all: eexists; split; [reflexivity|]; repeat constructor.
Qed.

(** An invariant of the log that every pass of a loop keeps is kept by the
    loop. *)
Lemma for_each_log_inv (I : list event -> Prop) (body : nat -> M unit) :
  (forall x w, I (log w) -> I (log (snd (body x w)))) ->
  forall xs b w, I (log w) -> I (log (snd (for_each xs body b w))).
Proof.
  intros Hbody xs. induction xs as [|x xs IH]; intros b w Hw; simpl.
  - exact Hw.
  - unfold bind. specialize (Hbody x w Hw).
    destruct (body x w) as [[[]|ex] w']; simpl in Hbody.
    + apply IH, Hbody.
    + exact Hbody.
Qed.

Lemma Blocks_tail l tail :
  Blocks backward_grads args num_batches l ->
  Forall (fun ev => is_tail_event ev = true) tail ->
  Blocks backward_grads args num_batches (l ++ tail).
Proof.
  intros Hl Ht. revert l Hl.
  induction Ht as [|ev tail Hev _ IH]; intros l Hl.
  - by rewrite app_nil_r.
  - replace (l ++ ev :: tail)%list with ((l ++ [ev]) ++ tail)%list
      by (by rewrite <- app_assoc).
    apply IH. constructor; [done|]. by destruct ev.
Qed.

Lemma iteration_Blocks e i w :
  Blocks backward_grads args num_batches (log w) ->
  Blocks backward_grads args num_batches
    (log (snd (iteration backward_grads args num_batches e i w))).
Proof.
  intros Hw. destruct (iteration_shape e i w) as (tail & -> & Ht).
  rewrite app_assoc. apply Blocks_tail; [|done]. by constructor.
Qed.

Lemma epoch_body_Blocks e w :
  Blocks backward_grads args num_batches (log w) ->
  Blocks backward_grads args num_batches
    (log (snd (epoch_body backward_grads args num_batches e w))).
Proof.
  intros Hw. unfold epoch_body, bind at 1. cbn [emit].
  set (w1 := {| log := _ |}).
  assert (H1 : Blocks backward_grads args num_batches (log w1))
    by (by constructor).
  pose proof (for_each_log_inv _ _ (iteration_Blocks e)
                (seq 0 num_batches) None w1 H1) as H2.
  unfold bind.
  destruct (for_each _ _ _ w1) as [[o|ex] w2]; exact H2.
Qed.

Lemma training_loop_Blocks w :
  Blocks backward_grads args num_batches (log w) ->
  Blocks backward_grads args num_batches
    (log (snd (training_loop backward_grads args num_batches w))).
Proof. apply for_each_log_inv, epoch_body_Blocks. Qed.

Lemma final_save_shape o w :
  exists tail,
    log (snd (final_save args o w)) = (log w ++ tail)%list /\
    Forall (fun ev => is_tail_event ev = true) tail.
Proof.
  destruct w as [l g r]. unfold final_save.
  destruct (save args) as [d|]; [destruct o as [n|]|];
    cbv [read_local bind emit ret raise log grads optim_lr snd];
    rewrite <- ?app_assoc; cbn [app].
  all: eexists; split; [try reflexivity|]; [..|repeat constructor].
  by rewrite app_nil_r.
Qed.

Lemma finetune_Blocks :
  Blocks backward_grads args num_batches
    (log (snd (finetune backward_grads args num_batches))).
Proof.
  unfold finetune, bind.
  pose proof (training_loop_Blocks (initial_world args)
                (Blocks_nil _ _ _)) as H.
  destruct (training_loop _ _ _ _) as [[o|ex] w1]; cbn [snd] in *; [|done].
  destruct (final_save_shape o w1) as (tail & -> & Ht).
  by apply Blocks_tail.
Qed.

End LoopFacts.

Section BlockFacts.
Variable backward_grads : nat -> nat -> list (list R).
Variable args : Args.
Variable num_batches : nat.

(** Every fetch in a well-shaped log opens a whole prefix. *)
Lemma Blocks_fetch l e i :
  Blocks backward_grads args num_batches l ->
  In (EFetchBatch e i) l ->
  exists pre post,
    l = (pre ++ iteration_prefix backward_grads args num_batches e i ++ post)%list.
Proof.
  induction 1 as [|l ev Hl IH Hev|l e' i' Hl IH]; intros Hin.
  - destruct Hin.
  - apply in_app_or in Hin as [Hin|[->|[]]]; [|discriminate Hev].
    destruct (IH Hin) as (pre & post & ->).
    exists pre, (post ++ [ev])%list. by rewrite <- !app_assoc.
  - apply in_app_or in Hin as [Hin|Hin].
    + destruct (IH Hin) as (pre & post & ->).
      exists pre, (post ++ iteration_prefix backward_grads args num_batches e' i')%list.
      by rewrite <- !app_assoc.
    + unfold iteration_prefix in Hin. cbn [In] in Hin.
      repeat (destruct Hin as [Hin|Hin]; [try discriminate Hin|]); [|destruct Hin].
      injection Hin as -> ->. exists l, []. by rewrite app_nil_r.
Qed.

(** Every optimizer step in a well-shaped log takes the scheduled rate of
    its pass and the clipped gradient of its batch. *)
Lemma Blocks_optim_step l lr_now g :
  Blocks backward_grads args num_batches l ->
  In (EOptimStep lr_now g) l ->
  exists e i,
    lr_now = cosine_lr (lr args) (warmup_length args)
               (epochs args * Z.of_nat num_batches)
               (Z.of_nat (i + e * num_batches)) /\
    g = Some (clip_grad_norm_ (backward_grads e i) max_grad_norm).
Proof.
  induction 1 as [|l ev Hl IH Hev|l e' i' Hl IH]; intros Hin.
  - destruct Hin.
  - apply in_app_or in Hin as [Hin|[->|[]]]; [auto|discriminate Hev].
  - apply in_app_or in Hin as [Hin|Hin]; [auto|].
    unfold iteration_prefix in Hin. cbn [In] in Hin.
    repeat (destruct Hin as [Hin|Hin]; [try discriminate Hin|]); [|destruct Hin].
    injection Hin as <- <-. by exists e', i'.
Qed.

(** Every forward pass in a well-shaped log receives the tokens of the
    empty prompt. *)
Lemma Blocks_forward l tok e i :
  Blocks backward_grads args num_batches l ->
  In (EForward tok e i) l ->
  tok = empty_prompt.
Proof.
  induction 1 as [|l ev Hl IH Hev|l e' i' Hl IH]; intros Hin.
  - destruct Hin.
  - apply in_app_or in Hin as [Hin|[->|[]]]; [auto|discriminate Hev].
  - apply in_app_or in Hin as [Hin|Hin]; [auto|].
    unfold iteration_prefix in Hin. cbn [In] in Hin.
    repeat (destruct Hin as [Hin|Hin]; [try discriminate Hin|]); [|destruct Hin].
    by injection Hin as <- _ _.
Qed.

End BlockFacts.

Lemma bound_after_cons x xs b :
  bound_after (x :: xs) b = bound_after xs (Some x).
Proof.
  unfold bound_after. destruct xs as [|y ys]; [done|].
  change (last (x :: y :: ys)) with (last (y :: ys)).
  destruct (last (y :: ys)) eqn:E; [done|].
  by apply last_None in E.
Qed.

(** A loop that returns has bound its variable to the last element. *)
Lemma for_each_result (body : nat -> M unit) xs :
  forall b w r w',
    for_each xs body b w = (Ok r, w') -> r = bound_after xs b.
Proof.
  induction xs as [|x xs IH]; intros b w r w' H; simpl in H.
  - by injection H as <- _.
  - rewrite bound_after_cons. unfold bind in H.
    destruct (body x w) as [[[]|ex] w1]; [eauto|discriminate H].
Qed.

(** A loop whose passes all return appends their effects in order. *)
Lemma for_each_ok (body : nat -> M unit) (f : nat -> list event) xs :
  (forall x w, fst (body x w) = Ok tt /\
               log (snd (body x w)) = (log w ++ f x)%list) ->
  forall b w,
    fst (for_each xs body b w) = Ok (bound_after xs b) /\
    log (snd (for_each xs body b w)) = (log w ++ flat_map f xs)%list.
Proof.
  intros Hbody. induction xs as [|x xs IH]; intros b w; simpl.
  - by rewrite app_nil_r.
  - rewrite bound_after_cons. unfold bind.
    destruct (Hbody x w) as [H1 H2].
    destruct (body x w) as [[[]|ex] w1]; [|discriminate H1].
    cbn [snd] in H2. destruct (IH (Some x) w1) as [-> ->].
    by rewrite H2, <- app_assoc.
Qed.

Lemma flat_map_split {A B} (f : A -> list B) x xs :
  In x xs -> exists pre post, flat_map f xs = (pre ++ f x ++ post)%list.
Proof.
  induction xs as [|y xs IH]; intros Hin; [destruct Hin|].
  destruct Hin as [->|Hin].
  - by exists [], (flat_map f xs).
  - destruct (IH Hin) as (pre & post & Heq).
    exists (f y ++ pre)%list, post. simpl. by rewrite Heq, <- app_assoc.
Qed.

Section SuccessPath.
Variable backward_grads : nat -> nat -> list (list R).
Variable args : Args.
Variable num_batches : nat.
Variable dir : string.
Hypothesis Hsave : save args = Some dir.
Hypothesis Hprint : print_every args <> 0%Z.
Hypothesis Hevery : save_every args <> 0%Z.

Lemma iteration_ok e i w :
  fst (iteration backward_grads args num_batches e i w) = Ok tt /\
  log (snd (iteration backward_grads args num_batches e i w))
  = (log w ++ iteration_events backward_grads args num_batches dir e i)%list.
Proof.
  destruct w as [l g r]. run_body. unfold mod_, iteration_events.
  apply Z.eqb_neq in Hprint, Hevery. rewrite Hprint, Hevery, Hsave.
  destruct (_ mod print_every args =? 0)%Z;
    destruct (_ mod save_every args =? 0)%Z;
    cbn [fst snd]; rewrite <- ?app_assoc; cbn [app];
    unfold iteration_prefix, checkpoint_events; cbn [app]; done.
Qed.

Lemma epoch_body_ok e w :
  fst (epoch_body backward_grads args num_batches e w) = Ok tt /\
  log (snd (epoch_body backward_grads args num_batches e w))
  = (log w ++ epoch_events backward_grads args num_batches dir e)%list.
Proof.
  unfold epoch_body, bind. cbn [emit].
  set (w1 := {| log := _ |}).
  destruct (for_each_ok _ _ (seq 0 num_batches) (iteration_ok e) None w1)
    as [H1 H2].
  destruct (for_each _ _ _ w1) as [[o|ex] w2]; [|discriminate H1].
  cbn [fst snd ret] in *. split; [done|].
  rewrite H2. subst w1. cbn [log]. by rewrite <- app_assoc.
Qed.

Lemma training_loop_ok w :
  fst (training_loop backward_grads args num_batches w)
  = Ok (bound_after (range (epochs args)) None) /\
  log (snd (training_loop backward_grads args num_batches w))
  = (log w ++ flat_map (epoch_events backward_grads args num_batches dir)
                (range (epochs args)))%list.
Proof. apply for_each_ok, epoch_body_ok. Qed.

End SuccessPath.

(** ** Gradient clipping *)

Section ClipFacts.
Local Open Scope R_scope.

Lemma Rsum_squares_nonneg (v : list R) : 0 <= Rsum (map (fun x => x * x) v).
Proof.
  induction v as [|x v IH]; simpl; [lra|]. pose proof (Rle_0_sqr x) as Hx.
  unfold Rsqr in Hx. lra.
Qed.

Lemma Rsum_squares_scale (c : R) (v : list R) :
  Rsum (map (fun x => x * x) (map (Rmult c) v))
  = c * c * Rsum (map (fun x => x * x) v).
Proof. induction v as [|x v IH]; simpl; [lra|]. rewrite IH. lra. Qed.

Lemma l2norm_nonneg (v : list R) : 0 <= l2norm v.
Proof. apply sqrt_pos. Qed.

Lemma l2norm_scale (c : R) (v : list R) :
  0 <= c -> l2norm (map (Rmult c) v) = c * l2norm v.
Proof.
  intros Hc. unfold l2norm. rewrite Rsum_squares_scale.
  rewrite sqrt_mult; [|nra|apply Rsum_squares_nonneg].
  by rewrite sqrt_square.
Qed.

Lemma total_norm_nonneg (gs : list (list R)) : 0 <= total_norm gs.
Proof. apply l2norm_nonneg. Qed.

Lemma total_norm_scale (c : R) (gs : list (list R)) :
  0 <= c -> total_norm (map (map (Rmult c)) gs) = c * total_norm gs.
Proof.
  intros Hc. unfold total_norm. rewrite <- l2norm_scale by done.
  f_equal. rewrite !map_map. apply map_ext. intros g. by apply l2norm_scale.
Qed.

(** Clipping to a non-negative ceiling leaves a total norm below it. *)
Lemma clip_grad_norm_bound (gs : list (list R)) (m : R) :
  0 <= m -> total_norm (clip_grad_norm_ gs m) <= m.
Proof.
  intros Hm. unfold clip_grad_norm_.
  pose proof (total_norm_nonneg gs) as Hn.
  set (n := total_norm gs) in *.
  assert (Heps : 0 < n + 1e-6) by lra.
  assert (Hq : 0 <= m / (n + 1e-6))
    by (apply Rmult_le_pos; [done|]; left; by apply Rinv_0_lt_compat).
  assert (Hc : 0 <= Rmin (m / (n + 1e-6)) 1)
    by (apply Rmin_glb; lra).
  rewrite total_norm_scale by done. fold n.
  apply Rle_trans with (m / (n + 1e-6) * n).
  - apply Rmult_le_compat_r; [done|]. apply Rmin_l.
  - unfold Rdiv. rewrite Rmult_assoc.
    rewrite <- (Rmult_1_r m) at 2. apply Rmult_le_compat_l; [done|].
    apply Rmult_le_reg_l with (n + 1e-6); [done|].
    rewrite <- Rmult_assoc, Rinv_r by lra. lra.
Qed.

Lemma max_grad_norm_one : max_grad_norm = 1.
Proof. unfold max_grad_norm. lra. Qed.

End ClipFacts.

(** ** The weighted loss *)

Section LossFacts.
Local Open Scope R_scope.

Lemma sigmoid_range (x : R) : 0 < sigmoid x < 1.
Proof.
  unfold sigmoid. pose proof (exp_pos (- x)) as He.
  split.
  - apply Rdiv_lt_0_compat; lra.
  - apply Rmult_lt_reg_r with (1 + exp (- x)); [lra|].
    unfold Rdiv. rewrite Rmult_assoc, Rinv_l by lra. lra.
Qed.

(** The logarithm of a number strictly between 0 and 1 is finite and not
    positive. *)
Lemma log_unit_interval (p : R) :
  0 < p < 1 -> exists v, log_ p = Some v /\ v <= 0.
Proof.
  intros [H0 H1]. unfold log_. destruct (Rlt_dec 0 p) as [_|Hn]; [|lra].
  exists (ln p). split; [done|]. rewrite <- ln_1. left. by apply ln_increasing.
Qed.

Lemma bce_elem_nonneg (p x : R) (y : bool) :
  0 < p -> exists v, bce_elem p x y = Some v /\ 0 <= v.
Proof.
  intros Hp. pose proof (sigmoid_range x) as Hs.
  destruct (log_unit_interval (sigmoid x)) as (ls & Els & Hls); [done|].
  destruct (log_unit_interval (1 - sigmoid x)) as (lc & Elc & Hlc); [lra|].
  unfold bce_elem. rewrite Els, Elc. cbn -[Rmult Rplus Rminus Ropp].
  eexists; split; [reflexivity|].
  destruct y; cbn [float_of_label]; nra.
Qed.

Lemma bce_row_nonneg (ps xs : list R) (ys : list bool) :
  Forall (fun p => 0 < p) ps ->
  length xs = length ps -> length ys = length ps ->
  exists r, bce_row ps xs ys = Some r /\
            Forall (fun v => 0 <= v) r /\ length r = length ps.
Proof.
  intros Hps. revert xs ys.
  induction Hps as [|p ps Hp _ IH]; intros [|x xs] [|y ys] Hx Hy;
    try discriminate.
  - by exists [].
  - destruct (bce_elem_nonneg p x y Hp) as (v & Ev & Hv).
    destruct (IH xs ys) as (r & Er & Hr & Hlen); [by injection Hx|by injection Hy|].
    exists (v :: r). cbn [bce_row]. rewrite Ev, Er. cbn.
    repeat split; [by constructor|by rewrite Hlen].
Qed.

Lemma bce_rows_nonneg (ps : list R) (logits : list (list R))
    (labels : list (list bool)) :
  Forall (fun p => 0 < p) ps ->
  length logits = length labels ->
  Forall (fun xs => length xs = length ps) logits ->
  Forall (fun ys => length ys = length ps) labels ->
  exists es, bce_rows ps logits labels = Some es /\
             Forall (fun v => 0 <= v) es /\
             length es = (length logits * length ps)%nat.
Proof.
  intros Hps Hlen Hx. revert labels Hlen.
  induction Hx as [|xs logits Hxs _ IH]; intros [|ys labels] Hlen Hy;
    try discriminate.
  - by exists [].
  - inversion Hy as [|? ? Hys Hy']; subst.
    destruct (bce_row_nonneg ps xs ys Hps Hxs Hys) as (r & Er & Hr & Hrl).
    destruct (IH labels) as (rs & Ers & Hrs & Hrsl); [by injection Hlen|done|].
    exists (r ++ rs)%list. cbn [bce_rows]. rewrite Er, Ers. cbn.
    repeat split; [by apply Forall_app|].
    rewrite length_app, Hrl, Hrsl. lia.
Qed.

Lemma Rsum_nonneg (l : list R) : Forall (fun v => 0 <= v) l -> 0 <= Rsum l.
Proof. induction 1; simpl; lra. Qed.

Lemma mean_nonneg (l : list R) :
  l <> [] -> Forall (fun v => 0 <= v) l ->
  exists v, mean l = Some v /\ 0 <= v.
Proof.
  intros Hne Hl. destruct l as [|x l]; [done|].
  eexists; split; [reflexivity|].
  apply Rmult_le_pos; [by apply Rsum_nonneg|].
  left. apply Rinv_0_lt_compat, lt_0_INR. simpl. lia.
Qed.

Lemma weights_length : length weights = 18%nat.
Proof. reflexivity. Qed.

Lemma weights_positive : Forall (fun p => 0 < p) weights.
Proof. unfold weights. repeat constructor; lra. Qed.

End LossFacts.

(** ** The clipping formula of line 106 *)

Section ClipFormula.
Local Open Scope R_scope.

(** The square of the 2-norm is the sum of the squares. *)
Lemma l2norm_square (v : list R) :
  l2norm v * l2norm v = Rsum (map (fun x => x * x) v).
Proof. unfold l2norm. apply sqrt_sqrt, Rsum_squares_nonneg. Qed.

Lemma total_norm_square (gs : list (list R)) :
  total_norm gs * total_norm gs
  = Rsum (map (fun g => Rsum (map (fun x => x * x) g)) gs).
Proof.
  unfold total_norm. rewrite l2norm_square, map_map. f_equal.
  apply map_ext. intros g. apply l2norm_square.
Qed.

(** What line 106 does to the gradients, written out. *)
Lemma clip_grad_norm_one (gs : list (list R)) :
  clip_grad_norm_ gs max_grad_norm
  = map (map (Rmult (Rmin (1 / (total_norm gs + 1e-6)) 1))) gs.
Proof. unfold clip_grad_norm_. by rewrite max_grad_norm_one. Qed.

End ClipFormula.

(** ** The weighted loss in binary32 *)

Section F32Facts.






Variable log_sigmoid : F32.t -> F32.t.





End F32Facts.

Section F32Ext.
Variables ls1 ls2 : F32.t -> F32.t.



End F32Ext.


(** ** The learning-rate schedule *)

Section ScheduleFacts.
Local Open Scope R_scope.

Lemma cosine_lr_warmup (base_lr : R) (warmup steps step : Z) :
  (step < warmup)%Z ->
  cosine_lr base_lr warmup steps step = base_lr * IZR step / IZR warmup.
Proof. intros H. unfold cosine_lr. apply Z.ltb_lt in H. by rewrite H. Qed.

Lemma cosine_lr_decay (base_lr : R) (warmup steps step : Z) :
  (warmup <= step)%Z ->
  cosine_lr base_lr warmup steps step
  = base_lr * (1 + cos (PI * IZR (step - warmup) / IZR (steps - warmup))) / 2.
Proof. intros H. unfold cosine_lr. apply Z.ltb_ge in H. by rewrite H. Qed.

Lemma cosine_lr_peak (base_lr : R) (warmup steps : Z) :
  cosine_lr base_lr warmup steps warmup = base_lr.
Proof.
  rewrite cosine_lr_decay by lia. rewrite Z.sub_diag.
  unfold Rdiv. rewrite Rmult_0_r, Rmult_0_l, cos_0. lra.
Qed.

Lemma cosine_lr_final (base_lr : R) (warmup steps : Z) :
  (warmup < steps)%Z -> cosine_lr base_lr warmup steps steps = 0.
Proof.
  intros H. rewrite cosine_lr_decay by lia.
  assert (Hd : IZR (steps - warmup) <> 0)
    by (apply not_0_IZR; lia).
  replace (PI * IZR (steps - warmup) / IZR (steps - warmup)) with PI
    by (by field).
  rewrite cos_PI. lra.
Qed.

(** The angle of the half-cosine stays between 0 and [PI] and grows with
    the step. *)
Lemma decay_angle (warmup steps s1 s2 : Z) :
  (warmup <= s1)%Z -> (s1 <= s2)%Z -> (s2 <= steps)%Z -> (warmup < steps)%Z ->
  0 <= PI * IZR (s1 - warmup) / IZR (steps - warmup)
  /\ PI * IZR (s1 - warmup) / IZR (steps - warmup)
     <= PI * IZR (s2 - warmup) / IZR (steps - warmup)
  /\ PI * IZR (s2 - warmup) / IZR (steps - warmup) <= PI.
Proof.
  intros H1 H12 H2 Hw.
  assert (Hd : 0 < IZR (steps - warmup)) by (apply IZR_lt; lia).
  assert (Ha : 0 <= IZR (s1 - warmup)) by (apply IZR_le; lia).
  assert (Hb : IZR (s1 - warmup) <= IZR (s2 - warmup)) by (apply IZR_le; lia).
  assert (Hc : IZR (s2 - warmup) <= IZR (steps - warmup)) by (apply IZR_le; lia).
  pose proof PI_RGT_0 as Hpi.
  assert (Hi : 0 < / IZR (steps - warmup)) by (by apply Rinv_0_lt_compat).
  unfold Rdiv. repeat split.
  - apply Rmult_le_pos; [|lra]. apply Rmult_le_pos; lra.
  - apply Rmult_le_compat_r; [lra|]. apply Rmult_le_compat_l; lra.
  - apply Rmult_le_reg_r with (IZR (steps - warmup)); [done|].
    rewrite Rmult_assoc, Rinv_l by lra. nra.
Qed.

Lemma cosine_lr_decay_monotone (base_lr : R) (warmup steps s1 s2 : Z) :
  0 <= base_lr ->
  (warmup <= s1)%Z -> (s1 <= s2)%Z -> (s2 <= steps)%Z -> (warmup < steps)%Z ->
  cosine_lr base_lr warmup steps s2 <= cosine_lr base_lr warmup steps s1.
Proof.
  intros Hb H1 H12 H2 Hw.
  rewrite !cosine_lr_decay by lia.
  destruct (decay_angle warmup steps s1 s2) as (Ha0 & Ha12 & Ha2); [done..|].
  assert (Hcos : cos (PI * IZR (s2 - warmup) / IZR (steps - warmup))
                 <= cos (PI * IZR (s1 - warmup) / IZR (steps - warmup)))
    by (apply cos_decr_1; lra).
  nra.
Qed.

Lemma cosine_lr_warmup_monotone (base_lr : R) (warmup steps s1 s2 : Z) :
  0 <= base_lr ->
  (0 <= s1)%Z -> (s1 <= s2)%Z -> (s2 <= warmup)%Z ->
  cosine_lr base_lr warmup steps s1 <= cosine_lr base_lr warmup steps s2.
Proof.
  intros Hb H1 H12 H2.
  destruct (Z.eq_dec s1 warmup) as [->|Hne1].
  { replace s2 with warmup by lia. lra. }
  assert (Hw : 0 < IZR warmup) by (apply IZR_lt; lia).
  assert (Hi : 0 < / IZR warmup) by (by apply Rinv_0_lt_compat).
  assert (Hs1 : 0 <= IZR s1) by (apply IZR_le; lia).
  rewrite (cosine_lr_warmup _ _ _ s1) by lia.
  destruct (Z.eq_dec s2 warmup) as [->|Hne2].
  - rewrite cosine_lr_peak.
    assert (Hle : IZR s1 <= IZR warmup) by (apply IZR_le; lia).
    unfold Rdiv. rewrite Rmult_assoc. rewrite <- (Rmult_1_r base_lr) at 2.
    apply Rmult_le_compat_l; [done|].
    apply Rmult_le_reg_r with (IZR warmup); [done|].
    rewrite Rmult_assoc, Rinv_l by lra. lra.
  - rewrite (cosine_lr_warmup _ _ _ s2) by lia.
    assert (Hle : IZR s1 <= IZR s2) by (apply IZR_le; lia).
    unfold Rdiv. apply Rmult_le_compat_r; [lra|].
    apply Rmult_le_compat_l; lra.
Qed.

Lemma cosine_lr_warmup_strict (base_lr : R) (warmup steps s1 s2 : Z) :
  0 < base_lr ->
  (0 <= s1)%Z -> (s1 < s2)%Z -> (s2 <= warmup)%Z ->
  cosine_lr base_lr warmup steps s1 < cosine_lr base_lr warmup steps s2.
Proof.
  intros Hb H1 H12 H2.
  assert (Hw : 0 < IZR warmup) by (apply IZR_lt; lia).
  assert (Hi : 0 < / IZR warmup) by (by apply Rinv_0_lt_compat).
  rewrite (cosine_lr_warmup _ _ _ s1) by lia.
  destruct (Z.eq_dec s2 warmup) as [->|Hne2].
  - rewrite cosine_lr_peak.
    assert (Hlt : IZR s1 < IZR warmup) by (apply IZR_lt; lia).
    unfold Rdiv. rewrite Rmult_assoc. rewrite <- (Rmult_1_r base_lr) at 2.
    apply Rmult_lt_compat_l; [done|].
    apply Rmult_lt_reg_r with (IZR warmup); [done|].
    rewrite Rmult_assoc, Rinv_l by lra. lra.
  - rewrite (cosine_lr_warmup _ _ _ s2) by lia.
    assert (Hlt : IZR s1 < IZR s2) by (apply IZR_lt; lia).
    unfold Rdiv. apply Rmult_lt_compat_r; [lra|].
    apply Rmult_lt_compat_l; lra.
Qed.

End ScheduleFacts.

(** ** The classification wrapper *)

Section WrapperFacts.

Lemma same_architecture_lookup (a b : gmap string Tensor) (k : string) :
  same_architecture a b -> shape <$> a !! k = shape <$> b !! k.
Proof. intros H. by rewrite <- !lookup_fmap, H. Qed.

(** Loading a state of the same architecture replaces every parameter. *)
Lemma load_state_dict_same (own loaded : gmap string Tensor) :
  same_architecture own loaded -> load_state_dict own loaded = Ok loaded.
Proof.
  intros Harch. unfold load_state_dict.
  rewrite bool_decide_true, bool_decide_true; cbn [andb].
  - f_equal. apply map_eq. intros k. rewrite map_lookup_imap.
    pose proof (same_architecture_lookup _ _ k Harch) as Hk.
    destruct (own !! k), (loaded !! k); done.
  - intros k t Hk. pose proof (same_architecture_lookup _ _ k Harch) as Hs.
    rewrite Hk in Hs. destruct (own !! k); [by eexists|done].
  - intros k t Hk. pose proof (same_architecture_lookup _ _ k Harch) as Hs.
    unfold param_fits. rewrite Hk in Hs.
    destruct (loaded !! k) as [t'|]; [|done].
    apply bool_decide_eq_true. by injection Hs.
Qed.

(** A parameter whose loaded shape differs makes the load raise. *)
Lemma load_state_dict_mismatch (own loaded : gmap string Tensor) k t t' :
  own !! k = Some t -> loaded !! k = Some t' -> shape t' <> shape t ->
  load_state_dict own loaded = Raise RuntimeError.
Proof.
  intros Hk Hk' Hne. unfold load_state_dict.
  rewrite bool_decide_false; [done|].
  intros Hall. specialize (Hall k t Hk). unfold param_fits in Hall.
  rewrite Hk' in Hall. by apply bool_decide_eq_true in Hall.
Qed.

Lemma torch_load_after_save obj path fs :
  torch_load path (torch_save obj path fs) = Ok obj.
Proof. unfold torch_load, torch_save. by rewrite lookup_insert_eq. Qed.

End WrapperFacts.

(** ** Whole runs *)

Section RunFacts.
Variable backward_grads : nat -> nat -> list (list R).
Variable args : Args.
Variable num_batches : nat.

(** The final save only appends to the log of the loop. *)
Lemma finetune_log_extends :
  exists fin,
    log (snd (finetune backward_grads args num_batches))
    = (log (snd (training_loop backward_grads args num_batches
                   (initial_world args))) ++ fin)%list.
Proof.
  unfold finetune, bind.
  destruct (training_loop _ _ _ _) as [[o|ex] w1]; cbn [snd].
  - destruct (final_save_shape args o w1) as (tail & -> & _). by exists tail.
  - exists []. by rewrite app_nil_r.
Qed.

(** On a run where nothing raises in the loop, every pass of every epoch
    leaves its effects in the log. *)
Lemma iteration_in_log (dir : string) (e i : nat) :
  save args = Some dir ->
  print_every args <> 0%Z ->
  save_every args <> 0%Z ->
  (e < Z.to_nat (epochs args))%nat ->
  (i < num_batches)%nat ->
  exists pre post,
    log (snd (finetune backward_grads args num_batches))
    = (pre ++ iteration_events backward_grads args num_batches dir e i
           ++ post)%list.
Proof.
  intros Hsave Hprint Hevery He Hi.
  destruct finetune_log_extends as (fin & ->).
  destruct (training_loop_ok backward_grads args num_batches dir
              Hsave Hprint Hevery (initial_world args)) as [_ ->].
  cbn [initial_world log app].
  destruct (flat_map_split
              (epoch_events backward_grads args num_batches dir)
              e (range (epochs args))) as (pre1 & post1 & ->).
  { apply in_seq. lia. }
  unfold epoch_events.
  destruct (flat_map_split
              (iteration_events backward_grads args num_batches dir e)
              i (seq 0 num_batches)) as (pre2 & post2 & ->).
  { apply in_seq. lia. }
  exists (pre1 ++ EModelTrain :: pre2)%list, (post2 ++ post1 ++ fin)%list.
  rewrite <- !app_assoc. cbn [app]. by rewrite <- !app_assoc.
Qed.

Lemma fetch_in_log (dir : string) (e i : nat) :
  save args = Some dir ->
  print_every args <> 0%Z ->
  save_every args <> 0%Z ->
  (e < Z.to_nat (epochs args))%nat ->
  (i < num_batches)%nat ->
  In (EFetchBatch e i) (log (snd (finetune backward_grads args num_batches))).
Proof.
  intros Hsave Hprint Hevery He Hi.
  destruct (iteration_in_log dir e i) as (pre & post & ->); [done..|].
  apply in_or_app. right. by left.
Qed.

Lemma last_bound_range (n : Z) :
  (1 <= n)%Z -> bound_after (range n) None = Some (Z.to_nat n - 1)%nat.
Proof.
  intros Hn. unfold bound_after, range.
  replace (Z.to_nat n) with (S (Z.to_nat n - 1)) at 1 by lia.
  by rewrite seq_S, last_snoc.
Qed.

End RunFacts.

(** * The claims *)

(** C3.  [save] then [load]: whatever the saved parameter values, the path
    and the file system, loading the file that [save] wrote into a wrapper
    of the same architecture returns exactly the saved parameter values;
    and [load] raises when the file holds a parameter whose shape differs
    from the wrapper's. *)
Theorem save_load_roundtrip :
  (forall (self other : ImageLatentsClassifier.t) (path : string)
          (fs : gmap string File),
      same_architecture (ImageLatentsClassifier.state_dict other)
                        (ImageLatentsClassifier.state_dict self) ->
      ImageLatentsClassifier.load other path
        (ImageLatentsClassifier.save self path fs) = Ok self)
  /\
  (forall (self : ImageLatentsClassifier.t) (path : string)
          (fs : gmap string File) (loaded : gmap string Tensor)
          (k : string) (t t' : Tensor),
      fs !! path = Some (FStateDict loaded) ->
      ImageLatentsClassifier.state_dict self !! k = Some t ->
      loaded !! k = Some t' ->
      shape t' <> shape t ->
      ImageLatentsClassifier.load self path fs = Raise RuntimeError).
Proof.
  split.
  - intros self other path fs Harch.
    unfold ImageLatentsClassifier.load, ImageLatentsClassifier.save.
    rewrite torch_load_after_save, load_state_dict_same by done.
    by destruct self.
  - intros self path fs loaded k t t' Hfile Hk Hk' Hne.
    unfold ImageLatentsClassifier.load, torch_load. rewrite Hfile.
    by rewrite (load_state_dict_mismatch _ _ k t t').
Qed.

Lemma save_load_roundtrip_witness :
  ImageLatentsClassifier.load fresh_classifier "out/checkpoint_1.pt"
    (ImageLatentsClassifier.save small_classifier "out/checkpoint_1.pt" ∅)
  = Ok small_classifier
  /\
  ImageLatentsClassifier.load narrow_classifier "out/checkpoint_1.pt"
    (ImageLatentsClassifier.save small_classifier "out/checkpoint_1.pt" ∅)
  = Raise RuntimeError.
Proof.
  destruct save_load_roundtrip as [Hround Hmismatch]. split.
  - apply Hround. reflexivity.
  - apply (Hmismatch narrow_classifier "out/checkpoint_1.pt" _
             (ImageLatentsClassifier.state_dict small_classifier)
             "classifier.bias"
             {| shape := [1]%nat; data := [0]%R |}
             {| shape := [2]%nat; data := [7; 8]%R |}).
    + reflexivity.
    + reflexivity.
    + reflexivity.
    + discriminate.
Defined.

(** C1 (as amended).  On a run that writes under [dir] with non-zero
    intervals, every pass [i] of every epoch [e] whose batch index is a
    multiple of [save_every] is followed, after at most the progress line,
    by the creation of [dir] and the writes of the model state to
    [checkpoint_{i}_epoch_{e+1}.pt] and of the optimizer state to
    [optim_{i}_epoch_{e+1}.pt] under [dir]: the number in the name is the
    batch index within the epoch, and the epoch is printed 1-indexed.  For
    batch index 10 of epoch 2 the model file is [checkpoint_10_epoch_3.pt]. *)
Theorem periodic_checkpoint_files
    (backward_grads : nat -> nat -> list (list R)) (args : Args)
    (num_batches : nat) (dir : string) (e i : nat) :
  save args = Some dir ->
  print_every args <> 0%Z ->
  save_every args <> 0%Z ->
  (e < Z.to_nat (epochs args))%nat ->
  (i < num_batches)%nat ->
  (Z.of_nat i mod save_every args = 0)%Z ->
  (exists pre mid post,
      log (snd (finetune backward_grads args num_batches))
      = (pre
         ++ iteration_prefix backward_grads args num_batches e i
         ++ mid
         ++ [ EMakedirs dir;
              EPrintSaving
                (os_path_join dir
                   ("checkpoint_" ++ str_of_nat i ++ "_epoch_"
                    ++ str_of_nat (e + 1) ++ ".pt"));
              ESaveModel
                (os_path_join dir
                   ("checkpoint_" ++ str_of_nat i ++ "_epoch_"
                    ++ str_of_nat (e + 1) ++ ".pt"));
              ESaveOptim
                (os_path_join dir
                   ("optim_" ++ str_of_nat i ++ "_epoch_"
                    ++ str_of_nat (e + 1) ++ ".pt")) ]
         ++ post)%list
      /\ (mid = [] \/ mid = [EPrintProgress e i num_batches]))
  /\ periodic_checkpoint_name 10 2 = "checkpoint_10_epoch_3.pt".
Proof.
  intros Hsave Hprint Hevery He Hi Hmod. split; [|reflexivity].
  destruct (iteration_in_log backward_grads args num_batches dir e i)
    as (pre & post & Hlog); [done..|].
  unfold iteration_events in Hlog. rewrite Hmod in Hlog. cbn [Z.eqb] in Hlog.
  exists pre,
    (if (Z.of_nat i mod print_every args =? 0)%Z
     then [EPrintProgress e i num_batches] else []),
    post.
  split.
  - rewrite Hlog. by rewrite <- !app_assoc.
  - destruct (_ =? 0)%Z; auto.
Qed.

Lemma periodic_checkpoint_files_witness :
  (exists pre mid post,
      log (snd (finetune demo_grads demo_args 11))
      = (pre
         ++ iteration_prefix demo_grads demo_args 11 2 10
         ++ mid
         ++ [ EMakedirs "out";
              EPrintSaving "out/checkpoint_10_epoch_3.pt";
              ESaveModel "out/checkpoint_10_epoch_3.pt";
              ESaveOptim "out/optim_10_epoch_3.pt" ]
         ++ post)%list
      /\ (mid = [] \/ mid = [EPrintProgress 2 10 11]))
  /\ periodic_checkpoint_name 10 2 = "checkpoint_10_epoch_3.pt".
Proof.
  apply (periodic_checkpoint_files demo_grads demo_args 11 "out" 2 10).
  - reflexivity.
  - discriminate.
  - discriminate.
  - vm_compute. lia.
  - lia.
  - reflexivity.
Defined.

(** C1, as stated, fails: with five batches per epoch, the pass of epoch 2
    with batch index 0 has global step 10; the run reaches it, and the
    model files it writes are those listed, none of which is
    [checkpoint_10_epoch_3.pt]. *)
Lemma periodic_name_is_not_global_step :
  (0 + 2 * 5 = 10)%nat
  /\ In (ESchedulerCall 10) (log (snd (finetune demo_grads demo_args 5)))
  /\ saved_models (log (snd (finetune demo_grads demo_args 5)))
     = [ "out/checkpoint_0_epoch_1.pt"; "out/checkpoint_0_epoch_2.pt";
         "out/checkpoint_0_epoch_3.pt"; "out/checkpoint_3.pt" ]
  /\ ~ In "out/checkpoint_10_epoch_3.pt"
         (saved_models (log (snd (finetune demo_grads demo_args 5)))).
Proof.
  assert (Hsaved :
    saved_models (log (snd (finetune demo_grads demo_args 5)))
    = [ "out/checkpoint_0_epoch_1.pt"; "out/checkpoint_0_epoch_2.pt";
        "out/checkpoint_0_epoch_3.pt"; "out/checkpoint_3.pt" ])
    by (vm_compute; reflexivity).
  split; [reflexivity|]. split; [|split; [exact Hsaved|]].
  - destruct (iteration_in_log demo_grads demo_args 5 "out" 2 0)
      as (pre & post & ->);
      [reflexivity|discriminate|discriminate|vm_compute; lia|lia|].
    apply in_or_app. right. apply in_or_app. left.
    unfold iteration_events, iteration_prefix. cbn [app In]. auto.
  - rewrite Hsaved. cbn [In]. intros [H|[H|[H|[H|[]]]]]; discriminate H.
Qed.

(** C2 (as amended).  When an output directory is configured, at least one
    epoch is configured and the epoch loop returns, the run returns too,
    and what it adds after the loop is the final checkpoint: the directory
    is created and the model state and the optimizer state are written
    under it to [checkpoint_{epochs}.pt] and [optim_{epochs}.pt]. *)
Theorem final_checkpoint_files
    (backward_grads : nat -> nat -> list (list R)) (args : Args)
    (num_batches : nat) (dir : string) (last_epoch : option nat) :
  save args = Some dir ->
  (1 <= epochs args)%Z ->
  fst (training_loop backward_grads args num_batches (initial_world args))
  = Ok last_epoch ->
  fst (finetune backward_grads args num_batches) = Ok tt
  /\ log (snd (finetune backward_grads args num_batches))
     = (log (snd (training_loop backward_grads args num_batches
                    (initial_world args)))
        ++ [ EMakedirs dir;
             EPrintSaving
               (os_path_join dir
                  ("checkpoint_" ++ str_of_nat (Z.to_nat (epochs args))
                   ++ ".pt"));
             ESaveModel
               (os_path_join dir
                  ("checkpoint_" ++ str_of_nat (Z.to_nat (epochs args))
                   ++ ".pt"));
             ESaveOptim
               (os_path_join dir
                  ("optim_" ++ str_of_nat (Z.to_nat (epochs args))
                   ++ ".pt")) ])%list.
Proof.
  intros Hsave Hepochs Hloop. unfold finetune, bind.
  destruct (training_loop _ _ _ _) as [r w1] eqn:Hrun.
  cbn [fst] in Hloop. subst r.
  apply for_each_result in Hrun. rewrite last_bound_range in Hrun by done.
  subst last_epoch. destruct w1 as [l g r].
  unfold final_save. rewrite Hsave.
  cbv [read_local bind emit ret log grads optim_lr snd fst].
  unfold final_checkpoint_name, final_optim_name.
  replace (Z.to_nat (epochs args) - 1 + 1)%nat with (Z.to_nat (epochs args))
    by lia.
  split; [done|]. by rewrite <- !app_assoc.
Qed.

Lemma final_checkpoint_files_witness :
  fst (finetune demo_grads demo_args 2) = Ok tt
  /\ log (snd (finetune demo_grads demo_args 2))
     = (log (snd (training_loop demo_grads demo_args 2
                    (initial_world demo_args)))
        ++ [ EMakedirs "out";
             EPrintSaving "out/checkpoint_3.pt";
             ESaveModel "out/checkpoint_3.pt";
             ESaveOptim "out/optim_3.pt" ])%list.
Proof.
  apply (final_checkpoint_files demo_grads demo_args 2 "out" (Some 2%nat)).
  - reflexivity.
  - vm_compute. discriminate.
  - reflexivity.
Defined.

(** C2, as stated, fails: with no epoch to run and no output directory the
    run returns normally and has written nothing. *)
Lemma final_checkpoint_is_conditional :
  fst (finetune demo_grads idle_args 5) = Ok tt
  /\ log (snd (finetune demo_grads idle_args 5)) = [].
Proof. split; reflexivity. Qed.

(** C10 (as amended).  When the configured epoch count is zero (or
    negative) the loop performs no effect at all, and no model file is
    written by the run.  If an output directory is configured, the final
    save creates it and then raises on reading the unbound loop variable
    [epoch]; if none is configured, the final save is skipped and the run
    returns normally.  Hence a final save that succeeds has at least one
    epoch behind it. *)
Theorem final_save_without_epoch
    (backward_grads : nat -> nat -> list (list R)) (args : Args)
    (num_batches : nat) :
  (epochs args <= 0)%Z ->
  log (snd (training_loop backward_grads args num_batches
              (initial_world args))) = []
  /\ saved_models (log (snd (finetune backward_grads args num_batches))) = []
  /\ match save args with
     | Some dir =>
         fst (finetune backward_grads args num_batches)
         = Raise UnboundLocalError
         /\ log (snd (finetune backward_grads args num_batches))
            = [EMakedirs dir]
     | None =>
         fst (finetune backward_grads args num_batches) = Ok tt
         /\ log (snd (finetune backward_grads args num_batches)) = []
     end.
Proof.
  intros Hepochs. unfold finetune, training_loop, range, bind.
  replace (Z.to_nat (epochs args)) with 0%nat by lia.
  cbn [seq for_each ret]. unfold final_save.
  destruct (save args) as [dir|]; cbv; auto.
Qed.

Lemma final_save_without_epoch_witness :
  log (snd (training_loop demo_grads zero_epoch_args 5
              (initial_world zero_epoch_args))) = []
  /\ saved_models (log (snd (finetune demo_grads zero_epoch_args 5))) = []
  /\ fst (finetune demo_grads zero_epoch_args 5) = Raise UnboundLocalError
  /\ log (snd (finetune demo_grads zero_epoch_args 5)) = [EMakedirs "out"].
Proof.
  apply (final_save_without_epoch demo_grads zero_epoch_args 5).
  vm_compute. discriminate.
Defined.

(** C10, as stated, fails: with zero epochs and no output directory the
    final-save step raises nothing. *)
Lemma zero_epochs_need_not_raise :
  epochs idle_args = 0%Z
  /\ fst (finetune demo_grads idle_args 3) = Ok tt
  /\ fst (finetune demo_grads idle_args 3) <> Raise UnboundLocalError.
Proof. split; [reflexivity|]. split; [reflexivity|discriminate]. Qed.

(** C5.  Every pass through the loop body, for batch index [i] of epoch
    [e], calls the scheduler with the global step [i + e * num_batches],
    then zeroes the gradients, and only then runs the forward pass, the
    loss, the backward pass, the clipping and the optimizer step, in this
    order.  The rate the optimizer step uses is the scheduled rate of that
    global step, and the gradients it uses are those that the backward
    pass of this very batch produces, clipped: nothing of the gradients of
    an earlier pass is left in them. *)
Theorem global_step_then_zero_grad
    (backward_grads : nat -> nat -> list (list R)) (args : Args)
    (num_batches : nat) (e i : nat) :
  In (EFetchBatch e i) (log (snd (finetune backward_grads args num_batches))) ->
  exists pre post,
    log (snd (finetune backward_grads args num_batches))
    = (pre
       ++ [ EFetchBatch e i;
            EClock;
            ESchedulerCall (i + e * num_batches);
            EZeroGrad;
            ELabelsToCuda;
            ETokenize empty_prompt;
            EClock;
            EForward empty_prompt e i;
            ELoss;
            EBackward;
            EClipGradNorm max_grad_norm;
            EOptimStep
              (cosine_lr (lr args) (warmup_length args)
                 (epochs args * Z.of_nat num_batches)
                 (Z.of_nat (i + e * num_batches)))
              (Some (clip_grad_norm_ (backward_grads e i) max_grad_norm));
            EClock ]
       ++ post)%list.
Proof.
  intros Hin.
  exact (Blocks_fetch backward_grads args num_batches _ e i
           (finetune_Blocks backward_grads args num_batches) Hin).
Qed.

Lemma global_step_then_zero_grad_witness :
  exists pre post,
    log (snd (finetune demo_grads demo_args 5))
    = (pre
       ++ [ EFetchBatch 1 2;
            EClock;
            ESchedulerCall 7;
            EZeroGrad;
            ELabelsToCuda;
            ETokenize empty_prompt;
            EClock;
            EForward empty_prompt 1 2;
            ELoss;
            EBackward;
            EClipGradNorm max_grad_norm;
            EOptimStep
              (cosine_lr (lr demo_args) 2 15 7)
              (Some (clip_grad_norm_ [[3; 4]; [12]]%R max_grad_norm));
            EClock ]
       ++ post)%list.
Proof.
  apply (global_step_then_zero_grad demo_grads demo_args 5 1 2).
  apply (fetch_in_log demo_grads demo_args 5 "out" 1 2).
  - reflexivity.
  - discriminate.
  - discriminate.
  - vm_compute. lia.
  - lia.
Defined.

(** C7 (as amended).  In every pass through the loop body the backward pass
    is followed at once by the clipping with the ceiling 1.0 and then by
    the optimizer step, and the gradients that any optimizer step of the
    run receives are those of the backward pass of its batch, each
    multiplied by [min (1 / (total_norm + 1e-6)) 1], where [total_norm],
    the square root of the sum of the squares of all their entries, is
    taken before the clipping.  In exact arithmetic the total norm of the
    gradients so scaled is at most 1. *)
Theorem clipped_before_optimizer_step
    (backward_grads : nat -> nat -> list (list R)) (args : Args)
    (num_batches : nat) :
  (forall e i,
      In (EFetchBatch e i)
         (log (snd (finetune backward_grads args num_batches))) ->
      exists pre post lr_now,
        log (snd (finetune backward_grads args num_batches))
        = (pre
           ++ [ EBackward;
                EClipGradNorm 1.0;
                EOptimStep lr_now
                  (Some (map (map (Rmult
                                     (Rmin (1 / (total_norm
                                                   (backward_grads e i)
                                                 + 1e-6)) 1)))
                           (backward_grads e i))) ]
           ++ post)%list)
  /\ (forall lr_now g,
         In (EOptimStep lr_now g)
            (log (snd (finetune backward_grads args num_batches))) ->
         exists e i,
           g = Some (map (map (Rmult
                                 (Rmin (1 / (total_norm (backward_grads e i)
                                             + 1e-6)) 1)))
                       (backward_grads e i)))
  /\ (forall g : list (list R),
         (0 <= total_norm g)%R
         /\ (total_norm g * total_norm g)%R
            = Rsum (map (fun t => Rsum (map (fun x => (x * x)%R) t)) g)
         /\ (total_norm
               (map (map (Rmult (Rmin (1 / (total_norm g + 1e-6)) 1))) g)
             <= 1)%R).
Proof.
  split; [|split].
  - intros e i Hin.
    destruct (Blocks_fetch backward_grads args num_batches _ e i
                (finetune_Blocks backward_grads args num_batches) Hin)
      as (pre & post & Hlog).
    exists (pre ++ firstn 9 (iteration_prefix backward_grads args
                               num_batches e i))%list,
           (EClock :: post).
    eexists. rewrite Hlog. unfold iteration_prefix. cbn [firstn].
    rewrite clip_grad_norm_one.
    rewrite <- !app_assoc. cbn [app]. reflexivity.
  - intros lr_now g Hin.
    destruct (Blocks_optim_step backward_grads args num_batches _ lr_now g
                (finetune_Blocks backward_grads args num_batches) Hin)
      as (e & i & _ & ->).
    exists e, i. by rewrite clip_grad_norm_one.
  - intros g. split; [apply total_norm_nonneg|].
    split; [apply total_norm_square|].
    rewrite <- clip_grad_norm_one.
    apply Rle_trans with max_grad_norm.
    + apply clip_grad_norm_bound. rewrite max_grad_norm_one. lra.
    + rewrite max_grad_norm_one. lra.
Qed.

Lemma clipped_before_optimizer_step_witness :
  exists pre post lr_now,
    log (snd (finetune demo_grads demo_args 5))
    = (pre
       ++ [ EBackward;
            EClipGradNorm 1.0;
            EOptimStep lr_now
              (Some (map (map (Rmult
                                 (Rmin (1 / (total_norm [[3; 4]; [12]]%R
                                             + 1e-6)) 1)))
                       [[3; 4]; [12]]%R)) ]
       ++ post)%list.
Proof.
  apply (proj1 (clipped_before_optimizer_step demo_grads demo_args 5) 1%nat
           2%nat).
  apply (fetch_in_log demo_grads demo_args 5 "out" 1 2);
    [reflexivity|discriminate|discriminate|vm_compute; lia|lia].
Defined.

(** C7, as stated, fails in the arithmetic of the tensors: clipping the
    binary32 gradient [(1, 48)] to the ceiling 1.0 leaves
    [(0.020828815, 0.99978316)], whose total norm is above 1 both as
    binary32 computes it (1.0000001) and exactly. *)
Lemma clipped_norm_exceeds_one_in_binary32 :
  clip_grad_norm_f32 [[F32.of_Z 1; F32.of_Z 48]] F32.one
  = [[S754_finite false 11182385 (-29); S754_finite false 16773578 (-24)]]
  /\ total_norm_f32
       (clip_grad_norm_f32 [[F32.of_Z 1; F32.of_Z 48]] F32.one)
     = S754_finite false 8388609 (-23)
  /\ F32.gtb (total_norm_f32
                (clip_grad_norm_f32 [[F32.of_Z 1; F32.of_Z 48]] F32.one))
       F32.one = true
  /\ (1 < squared_norm_exact
            (clip_grad_norm_f32 [[F32.of_Z 1; F32.of_Z 48]] F32.one))%Q.
Proof.
  split; [vm_compute; reflexivity|]. split; [vm_compute; reflexivity|].
  split; [vm_compute; reflexivity|]. vm_compute. reflexivity.
Qed.

(** C8.  In every pass through the loop body the tokenizer is called on
    the empty string with padding to the maximal length, truncation and a
    maximal length of 200, and its result is the text input of the forward
    pass on the batch; every forward pass of the run receives these same
    tokens, whatever the batch. *)
Theorem forward_text_is_empty_prompt
    (backward_grads : nat -> nat -> list (list R)) (args : Args)
    (num_batches : nat) :
  (forall e i,
      In (EFetchBatch e i)
         (log (snd (finetune backward_grads args num_batches))) ->
      exists pre post,
        log (snd (finetune backward_grads args num_batches))
        = (pre
           ++ [ ETokenize empty_prompt; EClock; EForward empty_prompt e i ]
           ++ post)%list)
  /\ (forall tok e i,
         In (EForward tok e i)
            (log (snd (finetune backward_grads args num_batches))) ->
         tok = empty_prompt)
  /\ text empty_prompt = ""
  /\ max_length empty_prompt = 200%nat
  /\ padding empty_prompt = "max_length"
  /\ truncation empty_prompt = true.
Proof.
  split; [|split; [|by repeat split]].
  - intros e i Hin.
    destruct (Blocks_fetch backward_grads args num_batches _ e i
                (finetune_Blocks backward_grads args num_batches) Hin)
      as (pre & post & Hlog).
    exists (pre ++ firstn 5 (iteration_prefix backward_grads args
                               num_batches e i))%list,
           (skipn 8 (iteration_prefix backward_grads args num_batches e i)
            ++ post)%list.
    rewrite Hlog. unfold iteration_prefix. cbn [firstn skipn].
    rewrite <- !app_assoc. cbn [app]. reflexivity.
  - intros tok e i Hin.
    exact (Blocks_forward backward_grads args num_batches _ tok e i
             (finetune_Blocks backward_grads args num_batches) Hin).
Qed.

Lemma forward_text_is_empty_prompt_witness :
  (exists pre post,
      log (snd (finetune demo_grads demo_args 5))
      = (pre
         ++ [ ETokenize empty_prompt; EClock; EForward empty_prompt 2 4 ]
         ++ post)%list)
  /\ text empty_prompt = "".
Proof.
  destruct (forward_text_is_empty_prompt demo_grads demo_args 5)
    as (Hcall & _ & Htext & _).
  split; [|exact Htext].
  apply (Hcall 2%nat 4%nat).
  apply (fetch_in_log demo_grads demo_args 5 "out" 2 4);
    [reflexivity|discriminate|discriminate|vm_compute; lia|lia].
Defined.

(** C4 (as amended).  For a non-negative base rate and a warmup length that
    is non-negative and below the total number of steps, the schedule is
    the linear ramp [base_lr * step / warmup_length] on the warmup window,
    which starts from 0 and meets [base_lr] at the end of the window; it is
    monotonically increasing up to the end of the window (strictly so for a
    positive base rate), monotonically non-increasing from there to the
    final step, and 0 at the final step [steps]; and it is a function of
    the step index. *)
Theorem cosine_lr_shape (base_lr : R) (warmup steps : Z) :
  (0 <= base_lr)%R ->
  (0 <= warmup)%Z ->
  (warmup < steps)%Z ->
  (forall s, (0 <= s < warmup)%Z ->
     cosine_lr base_lr warmup steps s = (base_lr * IZR s / IZR warmup)%R)
  /\ ((0 < warmup)%Z -> cosine_lr base_lr warmup steps 0 = 0%R)
  /\ cosine_lr base_lr warmup steps warmup = base_lr
  /\ (forall s1 s2, (0 <= s1)%Z -> (s1 <= s2)%Z -> (s2 <= warmup)%Z ->
        (cosine_lr base_lr warmup steps s1
         <= cosine_lr base_lr warmup steps s2)%R)
  /\ ((0 < base_lr)%R ->
      forall s1 s2, (0 <= s1)%Z -> (s1 < s2)%Z -> (s2 <= warmup)%Z ->
        (cosine_lr base_lr warmup steps s1
         < cosine_lr base_lr warmup steps s2)%R)
  /\ (forall s1 s2, (warmup <= s1)%Z -> (s1 <= s2)%Z -> (s2 <= steps)%Z ->
        (cosine_lr base_lr warmup steps s2
         <= cosine_lr base_lr warmup steps s1)%R)
  /\ cosine_lr base_lr warmup steps steps = 0%R
  /\ (forall s s', s = s' ->
        cosine_lr base_lr warmup steps s = cosine_lr base_lr warmup steps s').
Proof.
  intros Hbase Hwarm Hsteps. repeat split.
  - intros s Hs. apply cosine_lr_warmup. lia.
  - intros Hpos. rewrite cosine_lr_warmup by lia. unfold Rdiv.
    by rewrite Rmult_0_r, Rmult_0_l.
  - apply cosine_lr_peak.
  - intros s1 s2 H1 H12 H2. by apply cosine_lr_warmup_monotone.
  - intros Hpos s1 s2 H1 H12 H2. by apply cosine_lr_warmup_strict.
  - intros s1 s2 H1 H12 H2. by apply cosine_lr_decay_monotone.
  - by apply cosine_lr_final.
  - by intros s s' ->.
Qed.

Lemma cosine_lr_shape_witness :
  cosine_lr 1e-3 2 15 2 = 1e-3%R
  /\ (cosine_lr 1e-3 2 15 0 < cosine_lr 1e-3 2 15 1)%R
  /\ (cosine_lr 1e-3 2 15 9 <= cosine_lr 1e-3 2 15 4)%R
  /\ cosine_lr 1e-3 2 15 15 = 0%R.
Proof.
  destruct (cosine_lr_shape 1e-3 2 15)
    as (_ & _ & Hpeak & _ & Hstrict & Hdecay & Hfinal & _);
    [lra|lia|lia|].
  split; [exact Hpeak|]. split; [|split; [|exact Hfinal]].
  - apply Hstrict; [lra|lia|lia|lia].
  - apply Hdecay; lia.
Defined.

(** C4, as stated for every triple, fails: with a warmup of 4 steps and 2
    steps in total the final step lies inside the warmup window, where the
    rate is half the base rate, not 0. *)
Lemma cosine_lr_short_run_ends_above_zero :
  cosine_lr 1 4 2 2 = (1 / 2)%R /\ cosine_lr 1 4 2 2 <> 0%R.
Proof.
  assert (H : cosine_lr 1 4 2 2 = (1 / 2)%R).
  { rewrite cosine_lr_warmup by lia. lra. }
  split; [exact H|]. rewrite H. lra.
Qed.




(** * Further properties *)

(** ** Runs that stop in their first pass, and runs that complete *)

Section AbortedRuns.
Variable backward_grads : nat -> nat -> list (list R).
Variable args : Args.
Variable num_batches : nat.

(** The first pass of a run that has one: the loop enters epoch 0 and
    batch 0 from the initial world. *)
Lemma finetune_first_pass :
  (1 <= epochs args)%Z ->
  (1 <= num_batches)%nat ->
  forall e w',
    iteration backward_grads args num_batches 0 0
      {| log := [EModelTrain]; grads := None; optim_lr := lr args |}
    = (Raise e, w') ->
    finetune backward_grads args num_batches = (Raise e, w').
Proof.
  intros He Hn e w' Hit.
  unfold finetune, training_loop, range, bind.
  destruct (Z.to_nat (epochs args)) as [|n] eqn:En; [lia|].
  destruct num_batches as [|m]; [lia|].
  cbn [seq for_each]. unfold bind, epoch_body, bind.
  cbn [emit initial_world log grads optim_lr app seq for_each].
  unfold bind. by rewrite Hit.
Qed.

Lemma zero_print_interval_pass :
  print_every args = 0%Z ->
  iteration backward_grads args num_batches 0 0
    {| log := [EModelTrain]; grads := None; optim_lr := lr args |}
  = (Raise ZeroDivisionError,
     {| log := EModelTrain
               :: iteration_prefix backward_grads args num_batches 0 0;
        grads := Some (clip_grad_norm_ (backward_grads 0%nat 0%nat)
                         max_grad_norm);
        optim_lr := cosine_lr (lr args) (warmup_length args)
                      (epochs args * Z.of_nat num_batches)
                      (Z.of_nat (0 + 0 * num_batches)) |}).
Proof.
  intros Hp. run_body. unfold mod_. rewrite Hp. reflexivity.
Qed.

Lemma zero_save_interval_pass :
  print_every args <> 0%Z ->
  save_every args = 0%Z ->
  iteration backward_grads args num_batches 0 0
    {| log := [EModelTrain]; grads := None; optim_lr := lr args |}
  = (Raise ZeroDivisionError,
     {| log := EModelTrain
               :: (iteration_prefix backward_grads args num_batches 0 0
                   ++ [EPrintProgress 0 0 num_batches])%list;
        grads := Some (clip_grad_norm_ (backward_grads 0%nat 0%nat)
                         max_grad_norm);
        optim_lr := cosine_lr (lr args) (warmup_length args)
                      (epochs args * Z.of_nat num_batches)
                      (Z.of_nat (0 + 0 * num_batches)) |}).
Proof.
  intros Hp Hs. run_body. unfold mod_. apply Z.eqb_neq in Hp.
  rewrite Hp, Hs. reflexivity.
Qed.

Lemma no_directory_pass :
  print_every args <> 0%Z ->
  save_every args <> 0%Z ->
  save args = None ->
  iteration backward_grads args num_batches 0 0
    {| log := [EModelTrain]; grads := None; optim_lr := lr args |}
  = (Raise TypeError,
     {| log := EModelTrain
               :: (iteration_prefix backward_grads args num_batches 0 0
                   ++ [EPrintProgress 0 0 num_batches])%list;
        grads := Some (clip_grad_norm_ (backward_grads 0%nat 0%nat)
                         max_grad_norm);
        optim_lr := cosine_lr (lr args) (warmup_length args)
                      (epochs args * Z.of_nat num_batches)
                      (Z.of_nat (0 + 0 * num_batches)) |}).
Proof.
  intros Hp Hs Hd. run_body. unfold mod_. apply Z.eqb_neq in Hp, Hs.
  rewrite Hp, Hs, Hd. reflexivity.
Qed.

(** A run with a first pass stops in it when an interval is zero or no
    output directory is configured, before any file is written. *)
Lemma first_pass_raises :
  ((1 <= epochs args)%Z ->
   (1 <= num_batches)%nat ->
   print_every args = 0%Z \/ save_every args = 0%Z \/ save args = None ->
   exists ex, fst (finetune backward_grads args num_batches) = Raise ex)
  /\ ((1 <= epochs args)%Z ->
      (1 <= num_batches)%nat ->
      print_every args = 0%Z \/ save_every args = 0%Z \/ save args = None ->
      written_paths (log (snd (finetune backward_grads args num_batches))) = []).
Proof.
  split; intros He Hn Hbad.
  - destruct (Z.eq_dec (print_every args) 0%Z) as [Hp|Hp].
    { rewrite (finetune_first_pass He Hn _ _ (zero_print_interval_pass Hp)).
      by eexists. }
    destruct (Z.eq_dec (save_every args) 0%Z) as [Hs|Hs].
    { rewrite (finetune_first_pass He Hn _ _ (zero_save_interval_pass Hp Hs)).
      by eexists. }
    destruct Hbad as [?|[?|Hd]]; [done..|].
    rewrite (finetune_first_pass He Hn _ _ (no_directory_pass Hp Hs Hd)).
    by eexists.
  - destruct (Z.eq_dec (print_every args) 0%Z) as [Hp|Hp].
    { by rewrite (finetune_first_pass He Hn _ _ (zero_print_interval_pass Hp)). }
    destruct (Z.eq_dec (save_every args) 0%Z) as [Hs|Hs].
    { by rewrite (finetune_first_pass He Hn _ _ (zero_save_interval_pass Hp Hs)). }
    destruct Hbad as [?|[?|Hd]]; [done..|].
    by rewrite (finetune_first_pass He Hn _ _ (no_directory_pass Hp Hs Hd)).
Qed.

End AbortedRuns.

(** X1.  A run with at least one epoch and one batch whose [print_every]
    or [save_every] is zero raises [ZeroDivisionError] in its very first
    pass, on the remainder of line 110 or of line 114: by then the first
    batch has gone through the whole update, so exactly one optimizer step
    has been taken, the progress line is printed only if it was
    [save_every] that is zero, and no model file has been written. *)
Theorem zero_interval_aborts_first_pass
    (backward_grads : nat -> nat -> list (list R)) (args : Args)
    (num_batches : nat) :
  (1 <= epochs args)%Z ->
  (1 <= num_batches)%nat ->
  print_every args = 0%Z \/ save_every args = 0%Z ->
  fst (finetune backward_grads args num_batches) = Raise ZeroDivisionError
  /\ log (snd (finetune backward_grads args num_batches))
     = (EModelTrain
        :: iteration_prefix backward_grads args num_batches 0 0
        ++ (if (print_every args =? 0)%Z then []
            else [EPrintProgress 0 0 num_batches]))%list
  /\ optimizer_step_count
       (log (snd (finetune backward_grads args num_batches))) = 1%nat
  /\ saved_models (log (snd (finetune backward_grads args num_batches))) = [].
Proof.
  intros He Hn Hzero.
  destruct (Z.eq_dec (print_every args) 0%Z) as [Hp|Hp].
  - rewrite (finetune_first_pass _ _ _ He Hn _ _
               (zero_print_interval_pass _ _ _ Hp)).
    rewrite Hp. cbn [fst snd log Z.eqb]. rewrite app_nil_r.
    repeat split.
  - destruct Hzero as [Hz|Hs]; [done|].
    rewrite (finetune_first_pass _ _ _ He Hn _ _
               (zero_save_interval_pass _ _ _ Hp Hs)).
    apply Z.eqb_neq in Hp. rewrite Hp. cbn [fst snd log].
    repeat split.
Qed.

Lemma zero_interval_aborts_first_pass_witness :
  fst (finetune demo_grads
         {| lr := 1e-3; wd := 0.1; warmup_length := 2; epochs := 3;
            print_every := 0; save_every := 5; save := Some "out" |} 4)
  = Raise ZeroDivisionError.
Proof.
  apply zero_interval_aborts_first_pass.
  - cbn. lia.
  - lia.
  - left. reflexivity.
Defined.

(** X2.  A run with at least one epoch and one batch, non-zero intervals
    and no output directory raises [TypeError] in its first pass: batch
    index 0 is a multiple of every [save_every], so the periodic save is
    reached and [os.makedirs] is called on [None], after the first update
    and its progress line. *)
Theorem missing_directory_aborts_first_pass
    (backward_grads : nat -> nat -> list (list R)) (args : Args)
    (num_batches : nat) :
  (1 <= epochs args)%Z ->
  (1 <= num_batches)%nat ->
  print_every args <> 0%Z ->
  save_every args <> 0%Z ->
  save args = None ->
  fst (finetune backward_grads args num_batches) = Raise TypeError
  /\ log (snd (finetune backward_grads args num_batches))
     = (EModelTrain
        :: iteration_prefix backward_grads args num_batches 0 0
        ++ [EPrintProgress 0 0 num_batches])%list.
Proof.
  intros He Hn Hp Hs Hd.
  by rewrite (finetune_first_pass _ _ _ He Hn _ _
                (no_directory_pass _ _ _ Hp Hs Hd)).
Qed.

Lemma missing_directory_aborts_first_pass_witness :
  fst (finetune demo_grads
         {| lr := 1e-3; wd := 0.1; warmup_length := 2; epochs := 3;
            print_every := 2; save_every := 5; save := None |} 4)
  = Raise TypeError.
Proof.
  apply missing_directory_aborts_first_pass.
  - cbn. lia.
  - lia.
  - discriminate.
  - discriminate.
  - reflexivity.
Defined.

Section CompleteRuns.
Variable backward_grads : nat -> nat -> list (list R).
Variable args : Args.
Variable num_batches : nat.

(** The final save after a loop that bound [epoch]. *)
Lemma final_save_bound (dir : string) (e : nat) (w : World) :
  save args = Some dir ->
  fst (final_save args (Some e) w) = Ok tt
  /\ log (snd (final_save args (Some e) w))
     = (log w ++ checkpoint_events dir (final_checkpoint_name e)
                   (final_optim_name e))%list.
Proof.
  intros Hd. destruct w as [l g r]. unfold final_save. rewrite Hd.
  cbv [read_local bind emit ret log grads optim_lr snd fst checkpoint_events].
  split; [done|]. by rewrite <- !app_assoc.
Qed.

(** An epoch over an empty loader only switches to training mode. *)
Lemma epoch_body_empty (e : nat) (w : World) :
  num_batches = 0%nat ->
  fst (epoch_body backward_grads args num_batches e w) = Ok tt
  /\ log (snd (epoch_body backward_grads args num_batches e w))
     = (log w ++ [EModelTrain])%list.
Proof. intros ->. by destruct w. Qed.

(** The whole log of a run on which nothing raises. *)
Lemma finetune_complete_log (dir : string) :
  save args = Some dir ->
  print_every args <> 0%Z ->
  save_every args <> 0%Z ->
  (1 <= epochs args)%Z ->
  fst (finetune backward_grads args num_batches) = Ok tt
  /\ log (snd (finetune backward_grads args num_batches))
     = (flat_map (epoch_events backward_grads args num_batches dir)
          (range (epochs args))
        ++ checkpoint_events dir
             (final_checkpoint_name (Z.to_nat (epochs args) - 1))
             (final_optim_name (Z.to_nat (epochs args) - 1)))%list.
Proof.
  intros Hd Hp Hs He. unfold finetune, bind.
  destruct (training_loop_ok backward_grads args num_batches dir Hd Hp Hs
              (initial_world args)) as [Hres Hlog].
  destruct (training_loop _ _ _ _) as [[o|ex] w1]; [|discriminate Hres].
  cbn [fst snd] in *. injection Hres as ->.
  rewrite last_bound_range by done.
  destruct (final_save_bound dir (Z.to_nat (epochs args) - 1) w1 Hd)
    as [-> ->].
  by rewrite Hlog.
Qed.

End CompleteRuns.

(** X3.  On a loader with at least one batch, [finetune] can return
    normally only in these cases: with an epoch count of zero or less,
    when no output directory is configured; with at least one epoch, when
    an output directory is configured and both intervals are non-zero.
    Whatever else the run depends on, every other configuration makes it
    raise. *)
Theorem finetune_returns_only_if
    (backward_grads : nat -> nat -> list (list R)) (args : Args)
    (num_batches : nat) :
  (1 <= num_batches)%nat ->
  fst (finetune backward_grads args num_batches) = Ok tt ->
  if (epochs args <=? 0)%Z then save args = None
  else save args <> None
       /\ print_every args <> 0%Z /\ save_every args <> 0%Z.
Proof.
  intros Hn Hok. destruct (epochs args <=? 0)%Z eqn:He.
  - apply Z.leb_le in He. revert Hok.
    unfold finetune, training_loop, range, bind.
    replace (Z.to_nat (epochs args)) with 0%nat by lia.
    cbn [seq for_each ret]. unfold final_save.
    by destruct (save args) as [dir|]; cbv.
  - apply Z.leb_gt in He.
    destruct (first_pass_raises backward_grads args num_batches)
      as [Hfirst _].
    destruct (save args) as [dir|] eqn:Hd;
      destruct (Z.eq_dec (print_every args) 0%Z) as [Hp|Hp];
      destruct (Z.eq_dec (save_every args) 0%Z) as [Hs|Hs];
      try (by repeat split);
      exfalso;
      (destruct Hfirst as [ex Hr]; [lia|lia|tauto|]);
      rewrite Hr in Hok; discriminate Hok.
Qed.

Lemma finetune_returns_only_if_witness :
  save demo_args <> None
  /\ print_every demo_args <> 0%Z /\ save_every demo_args <> 0%Z.
Proof.
  apply (finetune_returns_only_if demo_grads demo_args 2).
  - lia.
  - apply (finetune_complete_log demo_grads demo_args 2 "out").
    + reflexivity.
    + discriminate.
    + discriminate.
    + cbn. lia.
Defined.

Section GlobalSteps.
Variable backward_grads : nat -> nat -> list (list R).
Variable args : Args.
Variable num_batches : nat.
Variable dir : string.

Lemma scheduler_steps_app (l1 l2 : list event) :
  scheduler_steps (l1 ++ l2) = (scheduler_steps l1 ++ scheduler_steps l2)%list.
Proof. apply omap_app. Qed.

Lemma scheduler_steps_flat_map {A} (f : A -> list event) (xs : list A) :
  scheduler_steps (flat_map f xs)
  = flat_map (fun x => scheduler_steps (f x)) xs.
Proof.
  induction xs as [|x xs IH]; [done|].
  cbn [flat_map]. by rewrite scheduler_steps_app, IH.
Qed.

Lemma scheduler_steps_iteration (e i : nat) :
  scheduler_steps (iteration_events backward_grads args num_batches dir e i)
  = [(i + e * num_batches)%nat].
Proof.
  unfold iteration_events. rewrite !scheduler_steps_app.
  by destruct (_ =? 0)%Z, (_ =? 0)%Z.
Qed.

Lemma flat_map_singleton_seq (f : nat -> nat) (start len : nat) :
  flat_map (fun i => [f i]) (seq start len) = map f (seq start len).
Proof. induction (seq start len) as [|x xs IH]; [done|]. cbn. by rewrite IH. Qed.

Lemma scheduler_steps_epoch (e : nat) :
  scheduler_steps (epoch_events backward_grads args num_batches dir e)
  = seq (e * num_batches) num_batches.
Proof.
  unfold epoch_events.
  change (EModelTrain :: ?l) with ([EModelTrain] ++ l)%list.
  rewrite scheduler_steps_app, scheduler_steps_flat_map. cbn [app scheduler_steps omap].
  erewrite flat_map_ext; [|intros i; apply scheduler_steps_iteration].
  rewrite flat_map_singleton_seq.
  transitivity (Nat.add (e * num_batches) <$> seq 0 num_batches).
  - apply map_ext. intros i. lia.
  - rewrite fmap_add_seq. f_equal. lia.
Qed.

Lemma concat_epoch_steps (n : nat) :
  flat_map (fun e => seq (e * num_batches) num_batches) (seq 0 n)
  = seq 0 (n * num_batches).
Proof.
  induction n as [|n IH]; [done|].
  rewrite seq_S, flat_map_app, IH. cbn [flat_map]. rewrite app_nil_r.
  cbn [Nat.add]. replace (S n * num_batches)%nat
    with (n * num_batches + num_batches)%nat by lia.
  by rewrite seq_app.
Qed.

Lemma optimizer_step_count_app (l1 l2 : list event) :
  optimizer_step_count (l1 ++ l2)
  = (optimizer_step_count l1 + optimizer_step_count l2)%nat.
Proof. unfold optimizer_step_count. by rewrite omap_app, length_app. Qed.

Lemma optimizer_step_count_flat_map {A} (f : A -> list event) (n : nat)
    (xs : list A) :
  (forall x, optimizer_step_count (f x) = n) ->
  optimizer_step_count (flat_map f xs) = (length xs * n)%nat.
Proof.
  intros Hf. induction xs as [|x xs IH]; [done|].
  cbn [flat_map length]. rewrite optimizer_step_count_app, IH, Hf. lia.
Qed.

Lemma optimizer_step_count_iteration (e i : nat) :
  optimizer_step_count
    (iteration_events backward_grads args num_batches dir e i) = 1%nat.
Proof.
  unfold iteration_events. rewrite !optimizer_step_count_app.
  by destruct (_ =? 0)%Z, (_ =? 0)%Z.
Qed.

Lemma optimizer_step_count_epoch (e : nat) :
  optimizer_step_count (epoch_events backward_grads args num_batches dir e)
  = num_batches.
Proof.
  unfold epoch_events.
  change (EModelTrain :: ?l) with ([EModelTrain] ++ l)%list.
  rewrite optimizer_step_count_app.
  rewrite (optimizer_step_count_flat_map _ 1)
    by apply optimizer_step_count_iteration.
  rewrite length_seq. cbn. lia.
Qed.

End GlobalSteps.

(** X4.  On a run on which nothing raises, the scheduler is called with
    the global steps [0, 1, ..., epochs * num_batches - 1], each exactly
    once and in increasing order, and the optimizer takes exactly
    [epochs * num_batches] steps. *)
Theorem scheduler_runs_through_every_step
    (backward_grads : nat -> nat -> list (list R)) (args : Args)
    (num_batches : nat) (dir : string) :
  save args = Some dir ->
  print_every args <> 0%Z ->
  save_every args <> 0%Z ->
  (1 <= epochs args)%Z ->
  scheduler_steps (log (snd (finetune backward_grads args num_batches)))
  = seq 0 (Z.to_nat (epochs args) * num_batches)
  /\ optimizer_step_count
       (log (snd (finetune backward_grads args num_batches)))
     = (Z.to_nat (epochs args) * num_batches)%nat.
Proof.
  intros Hd Hp Hs He.
  destruct (finetune_complete_log backward_grads args num_batches dir
              Hd Hp Hs He) as [_ ->].
  split.
  - rewrite scheduler_steps_app, scheduler_steps_flat_map.
    erewrite flat_map_ext; [|intros e; apply scheduler_steps_epoch].
    unfold range. rewrite concat_epoch_steps. cbn. by rewrite app_nil_r.
  - rewrite optimizer_step_count_app.
    rewrite (optimizer_step_count_flat_map _ num_batches)
      by apply optimizer_step_count_epoch.
    unfold range. rewrite length_seq. cbn. lia.
Qed.

Lemma scheduler_runs_through_every_step_witness :
  scheduler_steps (log (snd (finetune demo_grads demo_args 4)))
  = [0; 1; 2; 3; 4; 5; 6; 7; 8; 9; 10; 11]%nat
  /\ optimizer_step_count (log (snd (finetune demo_grads demo_args 4)))
     = 12%nat.
Proof.
  apply (scheduler_runs_through_every_step demo_grads demo_args 4 "out").
  - reflexivity.
  - discriminate.
  - discriminate.
  - cbn. lia.
Defined.

Section PairedSaves.
Variable backward_grads : nat -> nat -> list (list R).
Variable args : Args.
Variable num_batches : nat.

Lemma for_each_log_inv_in (I : list event -> Prop) (body : nat -> M unit)
    (xs : list nat) :
  (forall x w, In x xs -> I (log w) -> I (log (snd (body x w)))) ->
  forall b w, I (log w) -> I (log (snd (for_each xs body b w))).
Proof.
  induction xs as [|x xs IH]; intros Hbody b w Hw; simpl; [done|].
  unfold bind. pose proof (Hbody x w (or_introl eq_refl) Hw) as Hx.
  destruct (body x w) as [[[]|ex] w']; simpl in Hx; [|done].
  apply IH; [|done]. intros y w2 Hy. apply Hbody. by right.
Qed.

Lemma Paired_others l evs :
  Paired args num_batches l ->
  Forall (fun ev => is_save_event ev = false) evs ->
  Paired args num_batches (l ++ evs).
Proof.
  intros Hl Hevs. revert l Hl.
  induction Hevs as [|ev evs Hev _ IH]; intros l Hl.
  - by rewrite app_nil_r.
  - replace (l ++ ev :: evs)%list with ((l ++ [ev]) ++ evs)%list
      by (by rewrite <- app_assoc).
    apply IH. by constructor.
Qed.

Lemma Paired_checkpoint l dir model_name optim_name :
  Paired args num_batches l ->
  checkpoint_pair args num_batches (os_path_join dir model_name)
    (os_path_join dir optim_name) ->
  Paired args num_batches
    (l ++ checkpoint_events dir model_name optim_name).
Proof.
  intros Hl Hpair. unfold checkpoint_events.
  change (EMakedirs dir :: ?t) with ([EMakedirs dir] ++ t)%list.
  rewrite app_assoc. apply Paired_save; [|done].
  apply Paired_others; [done|]. by repeat constructor.
Qed.

(** What one pass adds to the log, on every path through it. *)
Lemma iteration_log_cases (e i : nat) (w : World) :
  exists tail,
    log (snd (iteration backward_grads args num_batches e i w))
    = (log w ++ iteration_prefix backward_grads args num_batches e i
             ++ tail)%list
    /\ (Forall (fun ev => is_save_event ev = false) tail
        \/ exists dir progress,
             save args = Some dir
             /\ save_every args <> 0%Z
             /\ (Z.of_nat i mod save_every args = 0)%Z
             /\ Forall (fun ev => is_save_event ev = false) progress
             /\ tail = (progress
                        ++ checkpoint_events dir
                             (periodic_checkpoint_name i e)
                             (periodic_optim_name i e))%list).
Proof.
  destruct w as [l g r]. run_body. unfold mod_.
  destruct (print_every args =? 0)%Z eqn:Hp.
  { exists []. split; [|by left].
    rewrite <- ?app_assoc. cbn [app]. unfold iteration_prefix. by cbn [app]. }
  destruct (save_every args =? 0)%Z eqn:Hs.
  { destruct (_ mod print_every args =? 0)%Z;
      eexists; (split; [rewrite <- ?app_assoc; cbn [app];
                        unfold iteration_prefix; cbn [app]; reflexivity|]);
      left; repeat constructor. }
  apply Z.eqb_neq in Hs.
  destruct (Z.of_nat i mod save_every args =? 0)%Z eqn:Hm.
  2:{ destruct (_ mod print_every args =? 0)%Z;
        eexists; (split; [rewrite <- ?app_assoc; cbn [app];
                          unfold iteration_prefix; cbn [app]; reflexivity|]);
        left; repeat constructor. }
  apply Z.eqb_eq in Hm.
  destruct (save args) as [dir|] eqn:Hd.
  2:{ destruct (_ mod print_every args =? 0)%Z;
        eexists; (split; [rewrite <- ?app_assoc; cbn [app];
                          unfold iteration_prefix; cbn [app]; reflexivity|]);
        left; repeat constructor. }
  destruct (_ mod print_every args =? 0)%Z;
    eexists; (split; [rewrite <- ?app_assoc; cbn [app];
                      unfold iteration_prefix; cbn [app]; reflexivity|]);
    right; exists dir.
  - exists [EPrintProgress e i num_batches]. by repeat split; repeat constructor.
  - exists []. by repeat split; repeat constructor.
Qed.

Lemma iteration_prefix_no_save (e i : nat) :
  Forall (fun ev => is_save_event ev = false)
    (iteration_prefix backward_grads args num_batches e i).
Proof. unfold iteration_prefix. by repeat constructor. Qed.

Lemma iteration_Paired (e i : nat) (w : World) :
  (e < Z.to_nat (epochs args))%nat ->
  (i < num_batches)%nat ->
  Paired args num_batches (log w) ->
  Paired args num_batches
    (log (snd (iteration backward_grads args num_batches e i w))).
Proof.
  intros He Hi Hw.
  destruct (iteration_log_cases e i w)
    as (tail & -> & [Hplain|(dir & progress & Hd & Hs & Hm & Hpr & ->)]).
  - rewrite app_assoc. apply Paired_others; [|done].
    apply Paired_others; [done|apply iteration_prefix_no_save].
  - rewrite !app_assoc. apply Paired_checkpoint.
    + apply Paired_others; [|done].
      apply Paired_others; [done|apply iteration_prefix_no_save].
    + exists dir. split; [done|]. left. by exists e, i.
Qed.

Lemma epoch_body_Paired (e : nat) (w : World) :
  (e < Z.to_nat (epochs args))%nat ->
  Paired args num_batches (log w) ->
  Paired args num_batches
    (log (snd (epoch_body backward_grads args num_batches e w))).
Proof.
  intros He Hw. unfold epoch_body, bind. cbn [emit].
  set (w1 := {| log := _ |}).
  assert (H1 : Paired args num_batches (log w1)) by (by constructor).
  pose proof (for_each_log_inv_in (Paired args num_batches)
                (iteration backward_grads args num_batches e)
                (seq 0 num_batches)) as Hloop.
  specialize (Hloop (fun i w2 Hin => iteration_Paired e i w2 He
                                        (proj2 (proj1 (in_seq _ _ _) Hin)))
                None w1 H1).
  destruct (for_each _ _ _ w1) as [[o|ex] w2]; exact Hloop.
Qed.

Lemma finetune_Paired :
  Paired args num_batches
    (log (snd (finetune backward_grads args num_batches))).
Proof.
  unfold finetune, bind.
  pose proof (for_each_log_inv_in (Paired args num_batches)
                (epoch_body backward_grads args num_batches)
                (range (epochs args))) as Hloop.
  specialize (Hloop (fun e w Hin => epoch_body_Paired e w
                                      (proj2 (proj1 (in_seq _ _ _) Hin)))
                None (initial_world args) (Paired_nil _ _)).
  fold (training_loop backward_grads args num_batches) in Hloop.
  destruct (training_loop _ _ _ _) as [[o|ex] w1] eqn:Hrun;
    cbn [snd] in *; [|done].
  apply for_each_result in Hrun.
  unfold final_save. destruct (save args) as [dir|] eqn:Hd; [|done].
  destruct w1 as [l g r]. cbn [log] in Hloop.
  destruct (Z_le_gt_dec 1 (epochs args)) as [He|He].
  - rewrite last_bound_range in Hrun by done. subst o.
    cbv [read_local bind emit ret log grads optim_lr snd].
    rewrite <- !app_assoc. cbn [app].
    apply (Paired_checkpoint l dir
             (final_checkpoint_name (Z.to_nat (epochs args) - 1))
             (final_optim_name (Z.to_nat (epochs args) - 1))); [done|].
    exists dir. split; [done|]. by right.
  - unfold range in Hrun. replace (Z.to_nat (epochs args)) with 0%nat in Hrun
      by lia.
    cbn in Hrun. subst o.
    cbv [read_local bind emit ret raise log grads optim_lr snd].
    by constructor.
Qed.

Lemma Paired_model l p :
  Paired args num_batches l ->
  In (ESaveModel p) l ->
  exists pre post q,
    l = (pre ++ [EPrintSaving p; ESaveModel p; ESaveOptim q] ++ post)%list
    /\ checkpoint_pair args num_batches p q.
Proof.
  induction 1 as [|l ev Hl IH Hev|l p' q' Hl IH Hpair]; intros Hin.
  - destruct Hin.
  - apply in_app_or in Hin as [Hin|[->|[]]]; [|discriminate Hev].
    destruct (IH Hin) as (pre & post & q & -> & Hpair).
    exists pre, (post ++ [ev])%list, q. by rewrite <- !app_assoc.
  - apply in_app_or in Hin as [Hin|Hin].
    + destruct (IH Hin) as (pre & post & q & -> & Hp).
      exists pre, (post ++ [EPrintSaving p'; ESaveModel p'; ESaveOptim q'])%list, q.
      by rewrite <- !app_assoc.
    + cbn [In] in Hin.
      destruct Hin as [Hin|[Hin|[Hin|[]]]]; try discriminate Hin.
      injection Hin as ->. exists l, [], q'. by rewrite app_nil_r.
Qed.

Lemma Paired_optim l q :
  Paired args num_batches l ->
  In (ESaveOptim q) l ->
  exists pre post p,
    l = (pre ++ [EPrintSaving p; ESaveModel p; ESaveOptim q] ++ post)%list
    /\ checkpoint_pair args num_batches p q.
Proof.
  induction 1 as [|l ev Hl IH Hev|l p' q' Hl IH Hpair]; intros Hin.
  - destruct Hin.
  - apply in_app_or in Hin as [Hin|[->|[]]]; [|discriminate Hev].
    destruct (IH Hin) as (pre & post & p & -> & Hpair).
    exists pre, (post ++ [ev])%list, p. by rewrite <- !app_assoc.
  - apply in_app_or in Hin as [Hin|Hin].
    + destruct (IH Hin) as (pre & post & p & -> & Hp).
      exists pre, (post ++ [EPrintSaving p'; ESaveModel p'; ESaveOptim q'])%list, p.
      by rewrite <- !app_assoc.
    + cbn [In] in Hin.
      destruct Hin as [Hin|[Hin|[Hin|[]]]]; try discriminate Hin.
      injection Hin as ->. exists l, [], p'. by rewrite app_nil_r.
Qed.

End PairedSaves.

Lemma periodic_model_in_log
    (backward_grads : nat -> nat -> list (list R)) (args : Args)
    (num_batches : nat) (dir : string) (e i : nat) :
  save args = Some dir ->
  print_every args <> 0%Z ->
  save_every args <> 0%Z ->
  (e < Z.to_nat (epochs args))%nat ->
  (i < num_batches)%nat ->
  (Z.of_nat i mod save_every args = 0)%Z ->
  In (ESaveModel (os_path_join dir (periodic_checkpoint_name i e)))
     (log (snd (finetune backward_grads args num_batches))).
Proof.
  intros Hsave Hprint Hevery He Hi Hmod.
  destruct (iteration_in_log backward_grads args num_batches dir e i)
    as (pre & post & ->); [done..|].
  apply in_or_app. right. apply in_or_app. left.
  unfold iteration_events. rewrite Hmod. cbn [Z.eqb].
  apply in_or_app. right. apply in_or_app. right.
  unfold checkpoint_events. right. right. by left.
Qed.

(** X5.  In every run, complete or aborted, a model file is only ever
    written as part of a checkpoint: the write is announced on the line
    before, the optimizer state is written right after it, and the two
    paths are those of a periodic checkpoint (of a batch index [i] below
    the number of batches that is a multiple of [save_every], in an epoch
    below the configured count) or those of the final checkpoint, under
    the configured directory.  Likewise no optimizer state is written
    without the model file before it. *)
Theorem saved_files_come_in_pairs
    (backward_grads : nat -> nat -> list (list R)) (args : Args)
    (num_batches : nat) :
  (forall p,
      In (ESaveModel p)
         (log (snd (finetune backward_grads args num_batches))) ->
      exists pre post q,
        log (snd (finetune backward_grads args num_batches))
        = (pre ++ [EPrintSaving p; ESaveModel p; ESaveOptim q] ++ post)%list
        /\ checkpoint_pair args num_batches p q)
  /\ (forall q,
        In (ESaveOptim q)
           (log (snd (finetune backward_grads args num_batches))) ->
        exists pre post p,
          log (snd (finetune backward_grads args num_batches))
          = (pre ++ [EPrintSaving p; ESaveModel p; ESaveOptim q] ++ post)%list
          /\ checkpoint_pair args num_batches p q).
Proof.
  split.
  - intros p. apply Paired_model, finetune_Paired.
  - intros q. apply Paired_optim, finetune_Paired.
Qed.

Lemma saved_files_come_in_pairs_witness :
  exists pre post q,
    log (snd (finetune demo_grads demo_args 6))
    = (pre ++ [EPrintSaving "out/checkpoint_5_epoch_2.pt";
               ESaveModel "out/checkpoint_5_epoch_2.pt";
               ESaveOptim q] ++ post)%list
    /\ checkpoint_pair demo_args 6 "out/checkpoint_5_epoch_2.pt" q.
Proof.
  apply (proj1 (saved_files_come_in_pairs demo_grads demo_args 6)).
  apply (periodic_model_in_log demo_grads demo_args 6 "out" 1 5).
  - reflexivity.
  - discriminate.
  - discriminate.
  - vm_compute. lia.
  - lia.
  - reflexivity.
Defined.

(** ** The progress line *)

Section ProgressLines.
Variable backward_grads : nat -> nat -> list (list R).
Variable args : Args.
Variable num_batches : nat.

Lemma iteration_progress (e i : nat) (w : World) :
  (e < Z.to_nat (epochs args))%nat ->
  (i < num_batches)%nat ->
  Forall (progress_ok args num_batches) (log w) ->
  Forall (progress_ok args num_batches)
    (log (snd (iteration backward_grads args num_batches e i w))).
Proof.
  intros He Hi Hw. destruct w as [l g r]. cbn [log] in Hw.
  run_body. unfold mod_.
  destruct (print_every args =? 0)%Z eqn:Hp;
    [cbn [snd log]; rewrite !Forall_app; by repeat split; repeat constructor|].
  apply Z.eqb_neq in Hp.
  destruct (Z.of_nat i mod print_every args =? 0)%Z eqn:Hm;
    [apply Z.eqb_eq in Hm|];
    destruct (save_every args =? 0)%Z;
    try destruct (Z.of_nat i mod save_every args =? 0)%Z;
    try destruct (save args) as [dir|];
    cbn [snd log]; rewrite !Forall_app;
    by repeat split; repeat constructor.
Qed.

Lemma finetune_progress :
  Forall (progress_ok args num_batches)
    (log (snd (finetune backward_grads args num_batches))).
Proof.
  unfold finetune, bind.
  pose proof (for_each_log_inv_in (Forall (progress_ok args num_batches))
                (epoch_body backward_grads args num_batches)
                (range (epochs args))) as Hloop.
  assert (Hbody : forall e w, In e (range (epochs args)) ->
            Forall (progress_ok args num_batches) (log w) ->
            Forall (progress_ok args num_batches)
              (log (snd (epoch_body backward_grads args num_batches e w)))).
  { intros e w [_ He]%in_seq Hw. unfold epoch_body, bind. cbn [emit].
    set (w1 := {| log := _ |}).
    assert (H1 : Forall (progress_ok args num_batches) (log w1)).
    { cbn [w1 log]. rewrite Forall_app. split; [done|by repeat constructor]. }
    pose proof (for_each_log_inv_in (Forall (progress_ok args num_batches))
                  (iteration backward_grads args num_batches e)
                  (seq 0 num_batches)) as Hin.
    specialize (Hin (fun i w2 Hi => iteration_progress e i w2 He
                                      (proj2 (proj1 (in_seq _ _ _) Hi)))
                  None w1 H1).
    destruct (for_each _ _ _ w1) as [[o|ex] w2]; exact Hin. }
  specialize (Hloop Hbody None (initial_world args) (Forall_nil_2 _)).
  fold (training_loop backward_grads args num_batches) in Hloop.
  destruct (training_loop _ _ _ _) as [[o|ex] w1]; cbn [snd] in *; [|done].
  destruct w1 as [l g r]. cbn [log] in Hloop.
  unfold final_save. destruct (save args) as [dir|]; [|done].
  destruct o as [e|];
    cbv [read_local bind emit ret raise log grads optim_lr snd];
    rewrite ?Forall_app; by repeat split; repeat constructor.
Qed.

Lemma progress_in_log (dir : string) (e i : nat) :
  save args = Some dir ->
  print_every args <> 0%Z ->
  save_every args <> 0%Z ->
  (e < Z.to_nat (epochs args))%nat ->
  (i < num_batches)%nat ->
  (Z.of_nat i mod print_every args = 0)%Z ->
  In (EPrintProgress e i num_batches)
     (log (snd (finetune backward_grads args num_batches))).
Proof.
  intros Hsave Hprint Hevery He Hi Hmod.
  destruct (iteration_in_log backward_grads args num_batches dir e i)
    as (pre & post & ->); [done..|].
  apply in_or_app. right. apply in_or_app. left.
  unfold iteration_events. rewrite Hmod. cbn [Z.eqb].
  apply in_or_app. right. apply in_or_app. left. by left.
Qed.

End ProgressLines.

(** X17.  In every run, complete or aborted, a progress line is only
    printed for a batch index that is a multiple of a non-zero
    [print_every] and lies below the number of batches, in an epoch below
    the configured count; the number of batches, by which line 111
    divides, is then not zero. *)
Theorem progress_lines_are_sound
    (backward_grads : nat -> nat -> list (list R)) (args : Args)
    (num_batches : nat) (e i n : nat) :
  In (EPrintProgress e i n)
     (log (snd (finetune backward_grads args num_batches))) ->
  n = num_batches
  /\ (i < n)%nat
  /\ n <> 0%nat
  /\ (e < Z.to_nat (epochs args))%nat
  /\ print_every args <> 0%Z
  /\ (Z.of_nat i mod print_every args = 0)%Z.
Proof.
  intros Hin.
  pose proof (finetune_progress backward_grads args num_batches) as Hall.
  rewrite Forall_forall in Hall.
  destruct (Hall _ (proj2 (list_elem_of_In _ _) Hin))
    as (Hn & Hi & He & Hp & Hm).
  repeat split; try done. lia.
Qed.

Lemma progress_lines_are_sound_witness :
  5%nat = 5%nat
  /\ (2 < 5)%nat
  /\ 5%nat <> 0%nat
  /\ (1 < Z.to_nat (epochs demo_args))%nat
  /\ print_every demo_args <> 0%Z
  /\ (Z.of_nat 2 mod print_every demo_args = 0)%Z.
Proof.
  apply (progress_lines_are_sound demo_grads demo_args 5 1 2 5).
  apply (progress_in_log demo_grads demo_args 5 "out" 1 2).
  - reflexivity.
  - discriminate.
  - discriminate.
  - vm_compute. lia.
  - lia.
  - reflexivity.
Defined.

(** ** The names of the checkpoint files *)

Section Names.

Lemma append_nil_l (s : string) : "" ++ s = s.
Proof. reflexivity. Qed.

Lemma append_cons_l (c : ascii) (a s : string) :
  String c a ++ s = String c (a ++ s).
Proof. reflexivity. Qed.

Lemma append_assoc (a b c : string) : (a ++ b) ++ c = a ++ b ++ c.
Proof.
  induction a as [|x a IH]; [done|]. rewrite !append_cons_l. by rewrite IH.
Qed.

Ltac push_append H := rewrite ?append_cons_l, ?append_nil_l in H.

Lemma string_app_inv_head (p s t : string) : p ++ s = p ++ t -> s = t.
Proof.
  induction p as [|c p IH]; rewrite ?append_cons_l, ?append_nil_l; [done|].
  intros H. injection H as H. by apply IH.
Qed.

Lemma digits_then_stop (d d' : Decimal.uint) (s t : string) :
  stops_number s -> stops_number t ->
  NilEmpty.string_of_uint d ++ s = NilEmpty.string_of_uint d' ++ t ->
  d = d' /\ s = t.
Proof.
  revert d'. induction d as [|d IH|d IH|d IH|d IH|d IH|d IH|d IH|d IH|d IH|d IH];
    intros [|d'|d'|d'|d'|d'|d'|d'|d'|d'|d'] Hs Ht H;
    cbn [NilEmpty.string_of_uint] in H; push_append H;
    try (by subst; cbn in *);
    try (injection H as H; destruct (IH d' Hs Ht H) as [-> ->]; done);
    try discriminate H.
Qed.

Lemma to_uint_nonnil (n : nat) : Nat.to_uint n <> Decimal.Nil.
Proof.
  rewrite <- (Unsigned.of_to n) at 1. rewrite Unsigned.to_of.
  apply unorm_nonnil.
Qed.

Lemma str_of_nat_digits (n : nat) :
  str_of_nat n = NilEmpty.string_of_uint (Nat.to_uint n).
Proof.
  unfold str_of_nat, NilZero.string_of_uint.
  pose proof (to_uint_nonnil n). by destruct (Nat.to_uint n).
Qed.

(** A printed number followed by something that is not a digit can be read
    back. *)
Lemma str_of_nat_then_stop (n n' : nat) (s t : string) :
  stops_number s -> stops_number t ->
  str_of_nat n ++ s = str_of_nat n' ++ t -> n = n' /\ s = t.
Proof.
  intros Hs Ht. rewrite !str_of_nat_digits. intros H.
  destruct (digits_then_stop _ _ _ _ Hs Ht H) as [Hn ->].
  split; [by apply Unsigned.to_uint_inj|done].
Qed.

Lemma os_path_join_relative (a b : string) :
  String.prefix "/" b = false -> os_path_join a b = join_prefix a ++ b.
Proof.
  intros Hb. unfold os_path_join, join_prefix. rewrite Hb.
  destruct (_ || _); [done|]. by rewrite append_assoc.
Qed.

Lemma periodic_checkpoint_name_inj (i e i' e' : nat) :
  periodic_checkpoint_name i e = periodic_checkpoint_name i' e' ->
  i = i' /\ e = e'.
Proof.
  unfold periodic_checkpoint_name. intros H.
  apply (string_app_inv_head "checkpoint_") in H.
  apply str_of_nat_then_stop in H as [-> H]; [|done..].
  apply (string_app_inv_head "_epoch_") in H.
  apply str_of_nat_then_stop in H as [H _]; [|done..].
  split; [done|lia].
Qed.

Lemma periodic_optim_name_inj (i e i' e' : nat) :
  periodic_optim_name i e = periodic_optim_name i' e' ->
  i = i' /\ e = e'.
Proof.
  unfold periodic_optim_name. intros H.
  apply (string_app_inv_head "optim_") in H.
  apply str_of_nat_then_stop in H as [-> H]; [|done..].
  apply (string_app_inv_head "_epoch_") in H.
  apply str_of_nat_then_stop in H as [H _]; [|done..].
  split; [done|lia].
Qed.

Lemma final_checkpoint_name_inj (e e' : nat) :
  final_checkpoint_name e = final_checkpoint_name e' -> e = e'.
Proof.
  unfold final_checkpoint_name. intros H.
  apply (string_app_inv_head "checkpoint_") in H.
  apply str_of_nat_then_stop in H as [H _]; [|done..]. lia.
Qed.

Lemma periodic_is_not_final (i e e' : nat) :
  periodic_checkpoint_name i e <> final_checkpoint_name e'.
Proof.
  unfold periodic_checkpoint_name, final_checkpoint_name. intros H.
  apply (string_app_inv_head "checkpoint_") in H.
  apply str_of_nat_then_stop in H as [_ H]; [|done..].
  destruct (str_of_nat (e + 1)); discriminate H.
Qed.

End Names.

Section FileNames.

Lemma final_optim_name_inj (e e' : nat) :
  final_optim_name e = final_optim_name e' -> e = e'.
Proof.
  unfold final_optim_name. intros H.
  apply (string_app_inv_head "optim_") in H.
  apply str_of_nat_then_stop in H as [H _]; [|done..]. lia.
Qed.

Lemma periodic_optim_is_not_final (i e e' : nat) :
  periodic_optim_name i e <> final_optim_name e'.
Proof.
  unfold periodic_optim_name, final_optim_name. intros H.
  apply (string_app_inv_head "optim_") in H.
  apply str_of_nat_then_stop in H as [_ H]; [|done..].
  destruct (str_of_nat (e + 1)); discriminate H.
Qed.

Lemma file_name_relative (f : checkpoint_file) :
  String.prefix "/" (file_name f) = false.
Proof. by destruct f. Qed.

Lemma file_name_inj (f g : checkpoint_file) :
  file_name f = file_name g -> f = g.
Proof.
  destruct f as [i e|i e|e|e], g as [i' e'|i' e'|e'|e']; cbn [file_name];
    intros H; try discriminate H.
  - by apply periodic_checkpoint_name_inj in H as [-> ->].
  - by apply periodic_is_not_final in H.
  - by apply periodic_optim_name_inj in H as [-> ->].
  - by apply periodic_optim_is_not_final in H.
  - symmetry in H. by apply periodic_is_not_final in H.
  - by apply final_checkpoint_name_inj in H as ->.
  - symmetry in H. by apply periodic_optim_is_not_final in H.
  - by apply final_optim_name_inj in H as ->.
Qed.

Lemma file_path_inj (dir : string) (f g : checkpoint_file) :
  os_path_join dir (file_name f) = os_path_join dir (file_name g) -> f = g.
Proof.
  rewrite !os_path_join_relative by apply file_name_relative.
  intros H. by apply file_name_inj, (string_app_inv_head (join_prefix dir)).
Qed.

End FileNames.

Section RunFiles.
Variable args : Args.
Variable num_batches : nat.

Lemma pass_files_elem (f : checkpoint_file) (e i : nat) :
  f ∈ pass_files args e i -> f = PeriodicModel i e \/ f = PeriodicOptim i e.
Proof.
  unfold pass_files. destruct (_ =? 0)%Z; [|by intros ?%elem_of_nil].
  rewrite !elem_of_cons, elem_of_nil. tauto.
Qed.

Lemma NoDup_pass_files (e i : nat) : NoDup (pass_files args e i).
Proof.
  unfold pass_files. destruct (_ =? 0)%Z; [|constructor].
  apply NoDup_cons. split; [|apply NoDup_singleton].
  rewrite elem_of_cons, elem_of_nil. by intros [?|[]].
Qed.

Lemma NoDup_run_files : NoDup (run_files args num_batches).
Proof.
  unfold run_files. apply NoDup_app. split; [|split].
  - change (flat_map ?f ?l) with (l ≫= f).
    apply NoDup_bind; [| |apply NoDup_seq].
    + intros e1 e2 f _ _.
      change (flat_map ?f ?l) with (l ≫= f).
      rewrite !list_elem_of_bind.
      intros (i1 & [->| ->]%pass_files_elem & _)
             (i2 & [H|H]%pass_files_elem & _); congruence.
    + intros e _. change (flat_map ?f ?l) with (l ≫= f).
      apply NoDup_bind; [| |apply NoDup_seq].
      * intros i1 i2 f _ _ [->| ->]%pass_files_elem [H|H]%pass_files_elem;
          congruence.
      * intros i _. apply NoDup_pass_files.
  - intros f. change (flat_map ?f ?l) with (l ≫= f).
    rewrite list_elem_of_bind. intros (e & Hf & _). revert Hf.
    change (flat_map ?f ?l) with (l ≫= f).
    rewrite list_elem_of_bind. intros (i & [->| ->]%pass_files_elem & _).
    all: rewrite !elem_of_cons, elem_of_nil; intros [?|[?|[]]]; discriminate.
  - apply NoDup_cons. split; [|apply NoDup_singleton].
    rewrite elem_of_cons, elem_of_nil. by intros [?|[]].
Qed.

Lemma NoDup_file_paths (dir : string) (fs : list checkpoint_file) :
  NoDup fs -> NoDup (map (fun f => os_path_join dir (file_name f)) fs).
Proof.
  intros Hfs. apply (NoDup_fmap_2_strong _ fs); [|done].
  intros f g _ _. apply file_path_inj.
Qed.

End RunFiles.

Section WrittenFiles.
Variable backward_grads : nat -> nat -> list (list R).
Variable args : Args.
Variable num_batches : nat.

Lemma written_paths_app (l1 l2 : list event) :
  written_paths (l1 ++ l2) = (written_paths l1 ++ written_paths l2)%list.
Proof. apply omap_app. Qed.

Lemma written_paths_flat_map {A} (f : A -> list event) (xs : list A) :
  written_paths (flat_map f xs) = flat_map (fun x => written_paths (f x)) xs.
Proof.
  induction xs as [|x xs IH]; [done|].
  cbn [flat_map]. by rewrite written_paths_app, IH.
Qed.

Lemma map_flat_map {A B C} (g : B -> C) (f : A -> list B) (xs : list A) :
  map g (flat_map f xs) = flat_map (fun x => map g (f x)) xs.
Proof.
  induction xs as [|x xs IH]; [done|].
  cbn [flat_map]. by rewrite map_app, IH.
Qed.

Lemma written_paths_iteration (dir : string) (e i : nat) :
  written_paths (iteration_events backward_grads args num_batches dir e i)
  = map (fun f => os_path_join dir (file_name f)) (pass_files args e i).
Proof.
  unfold iteration_events, pass_files. rewrite !written_paths_app.
  by destruct (_ =? 0)%Z, (_ =? 0)%Z.
Qed.

Lemma written_paths_epoch (dir : string) (e : nat) :
  written_paths (epoch_events backward_grads args num_batches dir e)
  = map (fun f => os_path_join dir (file_name f))
      (flat_map (pass_files args e) (seq 0 num_batches)).
Proof.
  unfold epoch_events.
  change (EModelTrain :: ?l) with ([EModelTrain] ++ l)%list.
  rewrite written_paths_app, written_paths_flat_map, map_flat_map.
  cbn [app written_paths omap].
  apply flat_map_ext. intros i. apply written_paths_iteration.
Qed.

Lemma written_paths_complete (dir : string) :
  save args = Some dir ->
  print_every args <> 0%Z ->
  save_every args <> 0%Z ->
  (1 <= epochs args)%Z ->
  written_paths (log (snd (finetune backward_grads args num_batches)))
  = map (fun f => os_path_join dir (file_name f)) (run_files args num_batches).
Proof.
  intros Hd Hp Hs He.
  destruct (finetune_complete_log backward_grads args num_batches dir
              Hd Hp Hs He) as [_ ->].
  unfold run_files.
  rewrite written_paths_app, written_paths_flat_map, map_app, map_flat_map.
  f_equal. apply flat_map_ext. intros e. apply written_paths_epoch.
Qed.

(** A run over an empty loader: every epoch only switches to training
    mode. *)
Lemma empty_loader_loop (w : World) :
  num_batches = 0%nat ->
  fst (training_loop backward_grads args num_batches w)
  = Ok (bound_after (range (epochs args)) None)
  /\ log (snd (training_loop backward_grads args num_batches w))
     = (log w ++ flat_map (fun _ => [EModelTrain]) (range (epochs args)))%list.
Proof.
  intros Hn. unfold training_loop.
  apply (for_each_ok (epoch_body backward_grads args num_batches)
           (fun _ => [EModelTrain])).
  intros e w'. by apply epoch_body_empty.
Qed.

End WrittenFiles.

Section EmptyLoader.
Variable backward_grads : nat -> nat -> list (list R).
Variable args : Args.

Lemma train_only_no_files (n : list nat) :
  written_paths (flat_map (fun _ => [EModelTrain]) n) = [].
Proof. by induction n. Qed.

Lemma empty_loader_log :
  (1 <= epochs args)%Z ->
  fst (finetune backward_grads args 0) = Ok tt
  /\ log (snd (finetune backward_grads args 0))
     = (flat_map (fun _ => [EModelTrain]) (range (epochs args))
        ++ match save args with
           | Some dir =>
               checkpoint_events dir
                 (final_checkpoint_name (Z.to_nat (epochs args) - 1))
                 (final_optim_name (Z.to_nat (epochs args) - 1))
           | None => []
           end)%list.
Proof.
  intros He. unfold finetune, bind.
  destruct (empty_loader_loop backward_grads args 0 (initial_world args)
              eq_refl) as [Hres Hlog].
  destruct (training_loop _ _ _ _) as [[o|ex] w1]; [|discriminate Hres].
  cbn [fst snd] in *. injection Hres as ->.
  rewrite last_bound_range by done. cbn [initial_world log app] in Hlog.
  destruct (save args) as [dir|] eqn:Hd.
  - destruct (final_save_bound args dir (Z.to_nat (epochs args) - 1) w1 Hd)
      as [-> ->].
    by rewrite Hlog.
  - unfold final_save. rewrite Hd. cbn [ret fst snd].
    by rewrite Hlog, app_nil_r.
Qed.

End EmptyLoader.

(** X7.  On a run on which nothing raises, the files written are exactly
    those of the periodic checkpoints, epoch by epoch and batch by batch,
    followed by those of the final checkpoint: the model state and then the
    optimizer state of every batch index that is a multiple of
    [save_every], under the configured directory. *)
Theorem files_of_a_complete_run
    (backward_grads : nat -> nat -> list (list R)) (args : Args)
    (num_batches : nat) (dir : string) :
  save args = Some dir ->
  print_every args <> 0%Z ->
  save_every args <> 0%Z ->
  (1 <= epochs args)%Z ->
  written_paths (log (snd (finetune backward_grads args num_batches)))
  = map (fun f => os_path_join dir (file_name f)) (run_files args num_batches).
Proof. apply written_paths_complete. Qed.

Lemma files_of_a_complete_run_witness :
  written_paths (log (snd (finetune demo_grads demo_args 2)))
  = [ "out/checkpoint_0_epoch_1.pt"; "out/optim_0_epoch_1.pt";
      "out/checkpoint_0_epoch_2.pt"; "out/optim_0_epoch_2.pt";
      "out/checkpoint_0_epoch_3.pt"; "out/optim_0_epoch_3.pt";
      "out/checkpoint_3.pt"; "out/optim_3.pt" ].
Proof.
  apply (files_of_a_complete_run demo_grads demo_args 2 "out").
  - reflexivity.
  - discriminate.
  - discriminate.
  - cbn. lia.
Defined.

(** X8.  The path of a checkpoint file tells what it holds: two files
    written under the same directory have the same path only if they are
    of the same kind (model or optimizer state, periodic or final) and
    carry the same batch index and epoch. *)
Theorem checkpoint_paths_are_unambiguous
    (dir : string) (f g : checkpoint_file) :
  os_path_join dir (file_name f) = os_path_join dir (file_name g) <-> f = g.
Proof. split; [apply file_path_inj|by intros ->]. Qed.

(** X9.  No run, complete or aborted, writes the same path twice: no
    checkpoint file is overwritten by a later one of the same run. *)
Theorem no_file_is_written_twice
    (backward_grads : nat -> nat -> list (list R)) (args : Args)
    (num_batches : nat) :
  NoDup (written_paths (log (snd (finetune backward_grads args num_batches)))).
Proof.
  destruct (Z_le_gt_dec (epochs args) 0) as [He|He].
  { unfold finetune, training_loop, range, bind.
    replace (Z.to_nat (epochs args)) with 0%nat by lia.
    cbn [seq for_each ret]. unfold final_save.
    destruct (save args) as [dir|]; cbv; constructor. }
  destruct num_batches as [|m].
  { destruct (empty_loader_log backward_grads args) as [_ ->]; [lia|].
    rewrite written_paths_app.
    rewrite train_only_no_files.
    destruct (save args) as [dir|]; [|constructor].
    apply (NoDup_file_paths dir [FinalModel _; FinalOptim _]).
    apply NoDup_cons. split; [|apply NoDup_singleton].
    rewrite elem_of_cons, elem_of_nil. by intros [?|[]]. }
  destruct (save args) as [dir|] eqn:Hd.
  2:{ destruct (first_pass_raises backward_grads args (S m)) as [_ ->];
        [constructor|lia|lia|tauto]. }
  destruct (Z.eq_dec (print_every args) 0%Z) as [Hp|Hp].
  { destruct (first_pass_raises backward_grads args (S m)) as [_ ->];
      [constructor|lia|lia|tauto]. }
  destruct (Z.eq_dec (save_every args) 0%Z) as [Hs|Hs].
  { destruct (first_pass_raises backward_grads args (S m)) as [_ ->];
      [constructor|lia|lia|tauto]. }
  rewrite (written_paths_complete backward_grads args (S m) dir) by (done || lia).
  apply NoDup_file_paths, NoDup_run_files.
Qed.

(** ** Clipping in exact arithmetic *)

Section ClipScaling.
Local Open Scope R_scope.

Lemma map_map_Rmult_1 (gs : list (list R)) : map (map (Rmult 1)) gs = gs.
Proof.
  induction gs as [|g gs IH]; [done|]. cbn [map]. rewrite IH. f_equal.
  induction g as [|x g IHg]; [done|]. cbn [map]. rewrite IHg. f_equal. lra.
Qed.

(** The clamped coefficient of [clip_grad_norm_] lies in [[0, 1]] for a
    non-negative ceiling. *)
Lemma clip_coef_range (gs : list (list R)) (m : R) :
  0 <= m -> 0 <= Rmin (m / (total_norm gs + 1e-6)) 1 <= 1.
Proof.
  intros Hm. pose proof (total_norm_nonneg gs) as Hn. split.
  - apply Rmin_glb; [|lra]. apply Rmult_le_pos; [done|].
    left. apply Rinv_0_lt_compat. lra.
  - apply Rmin_r.
Qed.

Lemma clip_coef_small (gs : list (list R)) (m : R) :
  total_norm gs + 1e-6 <= m -> Rmin (m / (total_norm gs + 1e-6)) 1 = 1.
Proof.
  intros Hle. pose proof (total_norm_nonneg gs) as Hn.
  apply Rmin_right.
  apply Rmult_le_reg_r with (total_norm gs + 1e-6); [lra|].
  unfold Rdiv. rewrite Rmult_assoc, Rinv_l by lra. lra.
Qed.

End ClipScaling.

(** X10.  In exact arithmetic, clipping to a non-negative ceiling
    multiplies all gradients by one common factor between 0 and 1, the
    ceiling over the total norm plus 1e-6, capped at 1: it never enlarges
    the total norm, and gradients whose total norm plus 1e-6 is at most
    the ceiling pass unchanged. *)
Theorem clipping_only_shrinks (gs : list (list R)) (m : R) :
  (0 <= m)%R ->
  (0 <= Rmin (m / (total_norm gs + 1e-6)) 1 <= 1)%R
  /\ clip_grad_norm_ gs m
     = map (map (Rmult (Rmin (m / (total_norm gs + 1e-6)) 1))) gs
  /\ (total_norm (clip_grad_norm_ gs m) <= total_norm gs)%R
  /\ ((total_norm gs + 1e-6 <= m)%R -> clip_grad_norm_ gs m = gs).
Proof.
  intros Hm. pose proof (total_norm_nonneg gs) as Hn.
  pose proof (clip_coef_range gs m Hm) as [Hc0 Hc1].
  split; [done|]. split; [done|]. split.
  - unfold clip_grad_norm_. rewrite total_norm_scale by done.
    apply Rle_trans with (1 * total_norm gs)%R; [|lra].
    by apply Rmult_le_compat_r.
  - intros Hsmall. unfold clip_grad_norm_.
    rewrite clip_coef_small by done. apply map_map_Rmult_1.
Qed.

Lemma clipping_only_shrinks_witness :
  (total_norm (clip_grad_norm_ [[3; 4]; [12]]%R max_grad_norm)
   <= total_norm [[3; 4]; [12]]%R)%R.
Proof.
  apply (clipping_only_shrinks [[3; 4]; [12]]%R max_grad_norm).
  rewrite max_grad_norm_one. lra.
Defined.

(** ** The forward pass *)

Section ForwardFacts.

Lemma ReLU_shape (x : list (list R)) :
  length (ReLU x) = length x
  /\ forall n, Forall (fun row => length row = n) x ->
               Forall (fun row => length row = n) (ReLU x).
Proof.
  unfold ReLU. split; [apply length_map|].
  intros n Hx. apply Forall_map. eapply Forall_impl; [exact Hx|].
  intros row Hrow. cbn. by rewrite length_map.
Qed.

Lemma Dropout_shape (p : R) (training : bool) (keep : nat -> nat -> bool)
    (x : list (list R)) :
  length (Dropout p training keep x) = length x
  /\ forall n, Forall (fun row => length row = n) x ->
               Forall (fun row => length row = n) (Dropout p training keep x).
Proof.
  unfold Dropout. destruct training; [|done]. split; [apply length_imap|].
  intros n Hx. apply Forall_lookup. intros i row.
  rewrite list_lookup_imap. destruct (x !! i) as [row'|] eqn:Hi; [|done].
  intros [= <-]. rewrite length_imap.
  by apply (Forall_lookup_1 _ _ _ _ Hx Hi).
Qed.

Lemma linear_shape (l : Linear) (x : list (list R)) :
  Forall (fun row => length row = in_features l) x ->
  exists y, linear l x = Ok y
            /\ length y = length x
            /\ Forall (fun row => length row = out_features l) y.
Proof.
  induction 1 as [|row x Hrow _ (y & Hy & Hlen & Hall)]; [by exists []|].
  cbn [linear]. unfold linear_row. rewrite bool_decide_true by done.
  rewrite Hy. eexists. split; [reflexivity|]. split; [by cbn; rewrite Hlen|].
  constructor; [|done]. by rewrite length_map, length_seq.
Qed.

Lemma linear_shape_error (l : Linear) (x : list (list R)) :
  ~ Forall (fun row => length row = in_features l) x ->
  linear l x = Raise RuntimeError.
Proof.
  induction x as [|row x IH]; intros Hx; [by destruct Hx|].
  cbn [linear]. unfold linear_row.
  destruct (decide (length row = in_features l)) as [Hrow|Hrow].
  - rewrite bool_decide_true by done.
    rewrite IH; [done|]. intros Hall. apply Hx. by constructor.
  - by rewrite bool_decide_false.
Qed.

End ForwardFacts.

Section ForwardRuns.
Variable Arg : Type.
Variable self : Forward.t Arg.
Variable keep : nat -> nat -> bool.
Variable args : list Arg.
Variable kwargs : gmap string PyValue.

(** The forward pass on a pair of results whose rows fit the linear
    layer. *)
Lemma forward_on_pair (t x : list (list R)) :
  Forward.trained_model Arg self args
    (<["return_latents" := PyBool true]> kwargs) = [t; x] ->
  Forall (fun row => length row = in_features (Forward.classifier Arg self)) x ->
  exists logits,
    Forward.forward Arg self keep args kwargs = inr logits
    /\ length logits = length x
    /\ Forall (fun row => length row
                          = out_features (Forward.classifier Arg self)) logits.
Proof.
  intros Hcall Hx. unfold Forward.forward. rewrite Hcall.
  destruct (ReLU_shape x) as [Hr1 Hr2].
  destruct (Dropout_shape (Forward.dropout_prob Arg self)
              (Forward.training Arg self) keep (ReLU x)) as [Hd1 Hd2].
  destruct (linear_shape (Forward.classifier Arg self)
              (Dropout (Forward.dropout_prob Arg self)
                 (Forward.training Arg self) keep (ReLU x)))
    as (y & -> & Hlen & Hall); [by apply Hd2, Hr2|].
  exists y. split; [done|]. split; [|done]. by rewrite Hlen, Hd1, Hr1.
Qed.

End ForwardRuns.

(** X13.  When the wrapped model returns a pair and every row of its second
    component, the image latents, has [latent_dim] entries, the forward
    pass returns logits: one row per row of latents, each with
    [num_classes] entries, whatever the dropout draw and the mode. *)
Theorem forward_logits_shape (Arg : Type) (self : Forward.t Arg)
    (keep : nat -> nat -> bool) (args : list Arg)
    (kwargs : gmap string PyValue) (t x : list (list R)) :
  Forward.trained_model Arg self args
    (<["return_latents" := PyBool true]> kwargs) = [t; x] ->
  Forall (fun row => length row = in_features (Forward.classifier Arg self)) x ->
  exists logits,
    Forward.forward Arg self keep args kwargs = inr logits
    /\ length logits = length x
    /\ Forall (fun row => length row
                          = out_features (Forward.classifier Arg self)) logits.
Proof. apply forward_on_pair. Qed.

(** X14.  The forward pass raises [ValueError] when the wrapped model
    returns anything but a pair, and the [RuntimeError] of the linear layer
    when a row of the image latents has another width than [latent_dim];
    it returns in no other case than a pair whose rows all fit. *)
Theorem forward_raises (Arg : Type) (self : Forward.t Arg)
    (keep : nat -> nat -> bool) (args : list Arg)
    (kwargs : gmap string PyValue) :
  (length (Forward.trained_model Arg self args
             (<["return_latents" := PyBool true]> kwargs)) <> 2%nat ->
   Forward.forward Arg self keep args kwargs = inl ValueError)
  /\ (forall t x,
        Forward.trained_model Arg self args
          (<["return_latents" := PyBool true]> kwargs) = [t; x] ->
        ~ Forall (fun row => length row
                             = in_features (Forward.classifier Arg self)) x ->
        Forward.forward Arg self keep args kwargs
        = inl (LayerError RuntimeError))
  /\ (forall logits,
        Forward.forward Arg self keep args kwargs = inr logits ->
        exists t x,
          Forward.trained_model Arg self args
            (<["return_latents" := PyBool true]> kwargs) = [t; x]
          /\ Forall (fun row => length row
                                = in_features (Forward.classifier Arg self)) x).
Proof.
  assert (Hbad : forall t x,
            Forward.trained_model Arg self args
              (<["return_latents" := PyBool true]> kwargs) = [t; x] ->
            ~ Forall (fun row => length row
                                 = in_features (Forward.classifier Arg self)) x ->
            Forward.forward Arg self keep args kwargs
            = inl (LayerError RuntimeError)).
  { intros t x Hcall Hx. unfold Forward.forward. rewrite Hcall.
    rewrite linear_shape_error; [done|]. intros Hall. apply Hx.
    destruct (Forward.training Arg self) eqn:Htr.
    - apply Forall_lookup. intros i row Hi.
      destruct (lookup_lt_is_Some_2
                  (Dropout (Forward.dropout_prob Arg self) true keep (ReLU x)) i)
        as [row' Hrow'].
      { destruct (Dropout_shape (Forward.dropout_prob Arg self) true keep
                    (ReLU x)) as [-> _].
        destruct (ReLU_shape x) as [-> _]. by eapply lookup_lt_Some. }
      pose proof (Forall_lookup_1 _ _ _ _ Hall Hrow') as Hlen.
      unfold Dropout, ReLU in Hrow'.
      rewrite list_lookup_imap, list_lookup_fmap, Hi in Hrow'.
      cbn in Hrow'. injection Hrow' as <-.
      by rewrite length_imap, length_map in Hlen.
    - unfold Dropout, ReLU in Hall. apply Forall_map in Hall.
      eapply Forall_impl; [exact Hall|]. intros row. cbn.
      by rewrite length_map. }
  split; [|split; [exact Hbad|]].
  - intros Hlen. unfold Forward.forward.
    destruct (Forward.trained_model _ _ _ _) as [|a [|b [|c l]]]; try done.
  - intros logits Hret.
    destruct (Forward.trained_model Arg self args
                (<["return_latents" := PyBool true]> kwargs))
      as [|t [|x [|c l]]] eqn:Hcall;
      try (unfold Forward.forward in Hret; rewrite Hcall in Hret;
           discriminate Hret).
    exists t, x. split; [done|].
    destruct (decide (Forall (fun row => length row
                = in_features (Forward.classifier Arg self)) x)) as [|Hno];
      [done|].
    rewrite (Hbad t x eq_refl Hno) in Hret. discriminate Hret.
Qed.

(** X15.  The caller's value for [return_latents] has no effect, since the
    forward pass sets it before calling the wrapped model; and in
    evaluation mode the logits do not depend on the dropout draw. *)
Theorem forward_ignores (Arg : Type) (self : Forward.t Arg)
    (keep keep' : nat -> nat -> bool) (args : list Arg)
    (kwargs : gmap string PyValue) (v : PyValue) :
  Forward.forward Arg self keep args (<["return_latents" := v]> kwargs)
  = Forward.forward Arg self keep args kwargs
  /\ (Forward.training Arg self = false ->
      Forward.forward Arg self keep args kwargs
      = Forward.forward Arg self keep' args kwargs).
Proof.
  unfold Forward.forward. split.
  - by rewrite insert_insert_eq.
  - intros Heval. unfold Dropout. by rewrite Heval.
Qed.

(** X16.  The logits fit the loss: for the wrapper as line 63 builds it,
    with 18 classes, a non-empty batch whose latents have [latent_dim]
    entries per row and 0/1 labels with 18 entries per row, the forward
    pass returns logits with one row per label vector and as many entries
    per row as there are class weights, so that the loss of line 81 takes
    them without a shape error; in exact arithmetic its value is not
    negative. *)
Theorem forward_feeds_the_loss (Arg : Type)
    (trained_model : list Arg -> gmap string PyValue -> list (list (list R)))
    (latent_dim : nat) (weight0 : nat -> nat -> R) (bias0 : nat -> R)
    (keep : nat -> nat -> bool) (args : list Arg)
    (kwargs : gmap string PyValue) (t x : list (list R))
    (labels : list (list bool)) :
  trained_model args (<["return_latents" := PyBool true]> kwargs) = [t; x] ->
  x <> [] ->
  Forall (fun row => length row = latent_dim) x ->
  length labels = length x ->
  Forall (fun ys => length ys = num_classes) labels ->
  exists logits v,
    Forward.forward Arg
      (Forward.init Arg trained_model latent_dim num_classes
         default_dropout_prob weight0 bias0)
      keep args kwargs = inr logits
    /\ length logits = length labels
    /\ Forall (fun row => length row = length weights) logits
    /\ loss_fn logits labels = Some v
    /\ (0 <= v)%R.
Proof.
  intros Hcall Hne Hx Hlen Hy.
  destruct (forward_on_pair Arg
              (Forward.init Arg trained_model latent_dim num_classes
                 default_dropout_prob weight0 bias0)
              keep args kwargs t x Hcall Hx) as (logits & Hfwd & Hrows & Hcols).
  cbn [Forward.init Forward.classifier out_features] in Hcols.
  destruct (bce_rows_nonneg weights logits labels)
    as (es & Hes & Hpos & Hcount);
    [apply weights_positive|congruence|by rewrite weights_length..|].
  destruct (mean_nonneg es) as (v & Hv & Hv0); [|done|].
  { intros ->. rewrite weights_length, Hrows in Hcount.
    destruct x; [done|]. discriminate Hcount. }
  exists logits, v. split; [done|]. split; [congruence|].
  split; [by rewrite weights_length|]. split; [|done].
  unfold loss_fn, BCEWithLogitsLoss. by rewrite Hes.
Qed.

Lemma forward_logits_shape_witness :
  exists logits,
    Forward.forward nat demo_wrapper (fun _ _ => true) [] ∅ = inr logits
    /\ length logits = 2%nat
    /\ Forall (fun row => length row = 2%nat) logits.
Proof.
  apply (forward_logits_shape nat demo_wrapper (fun _ _ => true) [] ∅
           [[1; 2; 3]]%R [[1; -2; 3]; [0; 0; 1]]%R).
  - reflexivity.
  - by repeat constructor.
Defined.

Lemma forward_feeds_the_loss_witness :
  exists logits v,
    Forward.forward nat
      (Forward.init nat demo_trained_model 3 num_classes default_dropout_prob
         (fun _ _ => 1%R) (fun _ => 0%R))
      (fun _ _ => true) [] ∅ = inr logits
    /\ loss_fn logits
         [ [true; false; false; true; false; false; true; false; false;
            false; true; false; false; false; true; false; false; false];
           [false; false; false; false; false; false; false; false; false;
            false; false; false; false; false; false; false; false; true] ]
       = Some v
    /\ (0 <= v)%R.
Proof.
  destruct (forward_feeds_the_loss nat demo_trained_model 3 (fun _ _ => 1%R)
              (fun _ => 0%R) (fun _ _ => true) [] ∅
              [[1; 2; 3]]%R [[1; -2; 3]; [0; 0; 1]]%R
              [ [true; false; false; true; false; false; true; false; false;
                 false; true; false; false; false; true; false; false; false];
                [false; false; false; false; false; false; false; false;
                 false; false; false; false; false; false; false; false;
                 false; true] ])
    as (logits & v & Hfwd & _ & _ & Hloss & Hv);
    [| | | | |by exists logits, v].
  - reflexivity.
  - discriminate.
  - by repeat constructor.
  - reflexivity.
  - by repeat constructor.
Defined.
